(** * A particle filter for vehicle localisation: model and verification

    Shallow embedding of [src/particle_filter.cpp].  A C++ [double] is a
    primitive binary64 float of the kernel ([PrimFloat.float]), so sums,
    products, quotients, square roots and comparisons are the IEEE 754 ones
    and run inside Rocq; every operation rounds to binary64, with no excess
    precision and no fused multiply-add.  An [int] is a [Z]: the program
    counts particles and landmarks with it and nothing else, so its
    wrap-around is out of reach and is not modelled.  A [std::vector] is a
    [list] that is read and written by index; [std::string] is [string].

    Three things the program calls are not part of it and are interfaces
    here: the transcendental functions of [math.h] ([Libm]), the shared
    random engine [gen] together with the distributions that draw from it
    ([RandomEngine]), and the text a [std::stringstream] produces for a
    [float] ([OStream]).

    Reading or writing a vector out of its bounds has no defined behaviour
    in C++; the model returns [Undefined] there.  The only loop that is not
    bounded by a counter is the [while] of [resample]; it runs on fuel and
    returns [OutOfFuel] when the fuel does not suffice. *)

From Stdlib Require Import ZArith Floats DecimalString DecimalZ Lia.
From Stdlib Require Uint63.
From stdpp Require Import base list strings.

Open Scope Z_scope.

(** ** Results of running a member function *)

Inductive outcome (A : Type) : Type :=
  | Done (a : A)
  | Undefined
  | OutOfFuel.
Arguments Done {A} a.
Arguments Undefined {A}.
Arguments OutOfFuel {A}.

#[global] Instance outcome_ret : MRet outcome := fun A a => Done a.
#[global] Instance outcome_bind : MBind outcome := fun A B f m =>
  match m with
  | Done a => f a
  | Undefined => Undefined
  | OutOfFuel => OutOfFuel
  end.

(** [v[i]] for an [int] index [i]. *)
Definition at_index {A} (v : list A) (i : Z) : outcome A :=
  if i <? 0 then Undefined
  else match v !! Z.to_nat i with
       | Some a => Done a
       | None => Undefined
       end.

(** [v[i] = a] for an [int] index [i]. *)
Definition set_index {A} (v : list A) (i : Z) (a : A) : outcome (list A) :=
  if (i <? 0) || (Z.of_nat (length v) <=? i) then Undefined
  else Done (<[Z.to_nat i := a]> v).

(** [for (int i = start; i < start + count; i++) body], threading the
    state [s]. *)
Fixpoint for_loop {S} (count : nat) (i : Z) (body : Z → S → outcome S) (s : S)
  : outcome S :=
  match count with
  | O => Done s
  | Datatypes.S count' => s' ← body i s; for_loop count' (i + 1) body s'
  end.

(** [for (int i = 0; i < n; i++) body]. *)
Definition for_range {S} (n : Z) (body : Z → S → outcome S) (s : S) : outcome S :=
  for_loop (Z.to_nat n) 0 body s.

(** ** Data model *)

Record Particle := mkParticle {
  id : Z;
  x : float;
  y : float;
  theta : float;
  weight : float;
  associations : list Z;
  sense_x : list float;
  sense_y : list float
}.

(** [helper_functions.h]: a landmark observation. *)
Record LandmarkObs := mkLandmarkObs {
  obs_id : Z;
  obs_x : float;
  obs_y : float
}.

(** [map.h]: [Map::single_landmark_s].  The coordinates are single
    precision in the program; each use widens them to [double], which is
    exact, so they are kept as the binary64 values they widen to. *)
Record single_landmark_s := mkLandmark {
  id_i : Z;
  x_f : float;
  y_f : float
}.

Record ParticleFilter := mkParticleFilter {
  num_particles : Z;
  particles : list Particle;
  is_initialized : bool
}.

(** A [double std[]] argument of three entries, and one of two. *)
Definition array3 : Type := float * float * float.
Definition array2 : Type := float * float.

(** ** What the program takes from its libraries *)

(** [math.h]. *)
Class Libm := {
  sin : float → float;
  cos : float → float;
  exp : float → float
}.

(** The generator [gen] and the distributions of [<random>].  [G] is the
    state every draw reads and advances: the engine, and whatever the
    distribution objects keep from one draw to the next.  Each function
    takes the parameters its distribution was constructed with.  An integer
    draw lies in the closed range it was asked for, as the standard
    requires; nothing is assumed of the real draws. *)
Class RandomEngine (G : Type) := {
  normal_distribution : float → float → G → float * G;
  uniform_int_distribution : Z → Z → G → Z * G;
  uniform_real_distribution : float → float → G → float * G;
  uniform_int_in_range : ∀ a b g,
    a ≤ b → a ≤ (uniform_int_distribution a b g).1 ≤ b
}.

(** [ss << (float) v] on a fresh [std::stringstream]. *)
Class OStream := {
  ostream_float : float → string
}.

(** ** Constants *)

(** [numeric_limits<double>::max()], the largest finite double. *)
Definition DBL_MAX : float := 0x1.fffffffffffffp+1023%float.

(** [numeric_limits<double>::min()], the smallest positive normal double. *)
Definition DBL_MIN : float := 0x1p-1022%float.

(** The literal [0.00001] of [prediction], as the binary64 value a compiler
    reads it to. *)
Definition yaw_rate_eps : float := 0x1.4f8b588e368f1p-17%float.

(** [M_PI]. *)
Definition M_PI : float := 0x1.921fb54442d18p+1%float.

Section Filter.

Context {libm : Libm} {G : Type} {rng : RandomEngine G} {os : OStream}.

(** ** Helper functions *)

(** Modelled from the spec: [dist] is declared in [helper_functions.h],
    which is not among the sources; the spec calls it the Euclidean
    distance between the particle and the landmark. *)
Definition dist (x1 y1 x2 y2 : float) : float :=
  (sqrt ((x2 - x1) * (x2 - x1) + (y2 - y1) * (y2 - y1)))%float.

(** Modelled from the spec: [multiv_prob] is not among the sources; the
    spec calls it the bivariate uncorrelated Gaussian likelihood of the
    observation [(x_obs, y_obs)] with mean [(mu_x, mu_y)] and per-axis
    standard deviations [(sig_x, sig_y)]. *)
Definition multiv_prob (sig_x sig_y x_obs y_obs mu_x mu_y : float) : float :=
  (let gauss_norm := 1 / (2 * M_PI * sig_x * sig_y) in
   let exponent :=
     ((x_obs - mu_x) * (x_obs - mu_x)) / (2 * (sig_x * sig_x))
     + ((y_obs - mu_y) * (y_obs - mu_y)) / (2 * (sig_y * sig_y)) in
   gauss_norm * exp (- exponent))%float.

(** ** [ParticleFilter::init] *)

(** One round of the loop of [init]: draw a pose and push the particle. *)
Definition init_body (x0 y0 theta0 : float) (std : array3)
    (i : Z) (st : list Particle * G) : outcome (list Particle * G) :=
  let '(ps, g) := st in
  let '(sx, sy, sth) := std in
  let '(px, g1) := normal_distribution x0 sx g in
  let '(py, g2) := normal_distribution y0 sy g1 in
  let '(pt, g3) := normal_distribution theta0 sth g2 in
  Done (ps ++ [mkParticle i px py pt 1%float [] [] []], g3).

Definition init (x0 y0 theta0 : float) (std : array3)
    (pf : ParticleFilter) (g : G) : outcome (ParticleFilter * G) :=
  if is_initialized pf then Done (pf, g)
  else
    let n := 100 in
    '(ps, g') ← for_range n (init_body x0 y0 theta0 std) (particles pf, g);
    Done (mkParticleFilter n ps true, g').

(** ** [ParticleFilter::prediction] *)

(** The motion model applied to [particles[i]], before the noise. *)
Definition move (delta_t velocity yaw_rate : float) (p : Particle) : Particle :=
  if (yaw_rate_eps <? abs yaw_rate)%float then
    mkParticle (id p)
      (x p + (velocity / yaw_rate)
             * (sin (theta p + yaw_rate * delta_t) - sin (theta p)))%float
      (y p + (velocity / yaw_rate)
             * (cos (theta p) - cos (theta p + yaw_rate * delta_t)))%float
      (theta p + yaw_rate * delta_t)%float
      (weight p) (associations p) (sense_x p) (sense_y p)
  else
    mkParticle (id p)
      (x p + velocity * delta_t * cos (theta p))%float
      (y p + velocity * delta_t * sin (theta p))%float
      (theta p)
      (weight p) (associations p) (sense_x p) (sense_y p).

(** The three noise draws of one round, in the order the program makes
    them, and the generator they leave. *)
Definition draw_noise (std_pos : array3) (g : G) : float * float * float * G :=
  let '(sx, sy, sth) := std_pos in
  let '(nx, g1) := normal_distribution 0%float sx g in
  let '(ny, g2) := normal_distribution 0%float sy g1 in
  let '(nt, g3) := normal_distribution 0%float sth g2 in
  (nx, ny, nt, g3).

Definition add_noise (std_pos : array3) (p : Particle) (g : G) : Particle * G :=
  let '(nx, ny, nt, g') := draw_noise std_pos g in
  (mkParticle (id p) (x p + nx)%float (y p + ny)%float (theta p + nt)%float
     (weight p) (associations p) (sense_x p) (sense_y p), g').

(** The generator after [k] rounds of the loop of [prediction]. *)
Fixpoint noise_gen (std_pos : array3) (k : nat) (g : G) : G :=
  match k with
  | O => g
  | Datatypes.S k' => (draw_noise std_pos (noise_gen std_pos k' g)).2
  end.

Definition prediction_body (delta_t : float) (std_pos : array3)
    (velocity yaw_rate : float)
    (i : Z) (st : list Particle * G) : outcome (list Particle * G) :=
  let '(ps, g) := st in
  p ← at_index ps i;
  let '(p', g') := add_noise std_pos (move delta_t velocity yaw_rate p) g in
  ps' ← set_index ps i p';
  Done (ps', g').

Definition prediction (delta_t : float) (std_pos : array3)
    (velocity yaw_rate : float)
    (pf : ParticleFilter) (g : G) : outcome (ParticleFilter * G) :=
  '(ps, g') ← for_range (num_particles pf)
                 (prediction_body delta_t std_pos velocity yaw_rate)
                 (particles pf, g);
  Done (mkParticleFilter (num_particles pf) ps (is_initialized pf), g').

(** ** [ParticleFilter::dataAssociation] *)

(** Squared distance between two points, as both nearest-neighbour loops
    compute it. *)
Definition sq_dist (ox oy px py : float) : float :=
  (let xDist := ox - px in
   let yDist := oy - py in
   xDist * xDist + yDist * yDist)%float.

(** The loop over [k] for the observation [o]: the state is
    [(minDist, mapId)] and the observation, whose [id] each round writes. *)
Definition assoc_step (st : float * Z * LandmarkObs) (pr : LandmarkObs)
  : float * Z * LandmarkObs :=
  let '(minDist, mapId, o) := st in
  let distance := sq_dist (obs_x o) (obs_y o) (obs_x pr) (obs_y pr) in
  let '(minDist', mapId') :=
    if (distance <? minDist)%float then (distance, obs_id pr)
    else (minDist, mapId) in
  (minDist', mapId', mkLandmarkObs mapId' (obs_x o) (obs_y o)).

Definition associate (predicted : list LandmarkObs) (o : LandmarkObs)
  : LandmarkObs :=
  (foldl assoc_step (DBL_MAX, -1, o) predicted).2.

Definition dataAssociation (predicted observations : list LandmarkObs)
  : list LandmarkObs :=
  associate predicted <$> observations.

(** ** [ParticleFilter::updateWeights] *)

(** The landmarks within the sensor range of [(particleX, particleY)],
    pushed in map order. *)
Definition in_range_step (sensor_range particleX particleY : float)
    (predictions : list LandmarkObs) (lm : single_landmark_s)
  : list LandmarkObs :=
  let distance := dist particleX particleY (x_f lm) (y_f lm) in
  if (distance <=? sensor_range)%float
  then predictions ++ [mkLandmarkObs (id_i lm) (x_f lm) (y_f lm)]
  else predictions.

Definition in_range (sensor_range particleX particleY : float)
    (landmarks : list single_landmark_s) : list LandmarkObs :=
  foldl (in_range_step sensor_range particleX particleY) [] landmarks.

(** The observation [(x_obs, y_obs)] of the vehicle frame in the map frame
    of a particle at [(particleX, particleY)] with heading [theta]. *)
Definition to_map_frame (particleX particleY theta0 x_obs y_obs : float)
  : float * float :=
  ((particleX + (cos theta0 * x_obs) - (sin theta0 * y_obs))%float,
   (particleY + (sin theta0 * x_obs) + (cos theta0 * y_obs))%float).

(** The inline nearest-neighbour loop: the state is
    [(minDist, mapId, p_x, p_y)]. *)
Definition nearest_step (ox oy : float) (st : float * Z * float * float)
    (pr : LandmarkObs) : float * Z * float * float :=
  let '(minDist, mapId, p_x, p_y) := st in
  let distance := sq_dist ox oy (obs_x pr) (obs_y pr) in
  if (distance <? minDist)%float then (distance, obs_id pr, obs_x pr, obs_y pr)
  else (minDist, mapId, p_x, p_y).

Definition nearest (predictions : list LandmarkObs) (ox oy : float)
  : float * Z * float * float :=
  foldl (nearest_step ox oy) (DBL_MAX, -1, 0%float, 0%float) predictions.

(** The factor one observation contributes to the weight of a particle. *)
Definition likelihood (std_landmark : array2) (predictions : list LandmarkObs)
    (particleX particleY theta0 : float) (o : LandmarkObs) : float :=
  let '(ox, oy) := to_map_frame particleX particleY theta0 (obs_x o) (obs_y o) in
  let '(_, _, p_x, p_y) := nearest predictions ox oy in
  multiv_prob std_landmark.1 std_landmark.2 ox oy p_x p_y.

Definition weigh (sensor_range : float) (std_landmark : array2)
    (observations : list LandmarkObs) (landmarks : list single_landmark_s)
    (p : Particle) : float :=
  let predictions := in_range sensor_range (x p) (y p) landmarks in
  foldl (λ w o, (w * likelihood std_landmark predictions
                       (x p) (y p) (theta p) o)%float)
        1%float observations.

Definition set_weight (p : Particle) (w : float) : Particle :=
  mkParticle (id p) (x p) (y p) (theta p) w
    (associations p) (sense_x p) (sense_y p).

Definition updateWeights_body (sensor_range : float) (std_landmark : array2)
    (observations : list LandmarkObs) (landmarks : list single_landmark_s)
    (i : Z) (ps : list Particle) : outcome (list Particle) :=
  p ← at_index ps i;
  set_index ps i
    (set_weight p (weigh sensor_range std_landmark observations landmarks p)).

Definition updateWeights (sensor_range : float) (std_landmark : array2)
    (observations : list LandmarkObs) (map_landmarks : list single_landmark_s)
    (pf : ParticleFilter) : outcome ParticleFilter :=
  ps ← for_range (num_particles pf)
         (updateWeights_body sensor_range std_landmark observations
            map_landmarks)
         (particles pf);
  Done (mkParticleFilter (num_particles pf) ps (is_initialized pf)).

(** ** [ParticleFilter::resample] *)

(** The first loop: copy the weights into [w] and track the largest. *)
Definition max_weight_body (ps : list Particle) (i : Z)
    (st : list float * float) : outcome (list float * float) :=
  let '(w, maxWeight) := st in
  p ← at_index ps i;
  Done (w ++ [weight p],
        if (maxWeight <? weight p)%float then weight p else maxWeight).

(** [while (beta > w[index]) { beta -= w[index]; index = (index+1) % n; }] *)
Fixpoint wheel (fuel : nat) (w : list float) (n : Z) (beta : float) (index : Z)
  : outcome (float * Z) :=
  match fuel with
  | O => OutOfFuel
  | Datatypes.S fuel' =>
      wi ← at_index w index;
      if (wi <? beta)%float
      then wheel fuel' w n (beta - wi)%float (Z.rem (index + 1) n)
      else Done (beta, index)
  end.

(** One round of the second loop: the state is
    [(beta, index, resample_ps, gen)]. *)
Definition resample_body (fuel : nat) (ps : list Particle) (w : list float)
    (n : Z) (maxWeight : float) (i : Z)
    (st : float * Z * list Particle * G)
  : outcome (float * Z * list Particle * G) :=
  let '(beta, index, resample_ps, g) := st in
  let '(d, g') := uniform_real_distribution 0%float maxWeight g in
  '(beta', index') ← wheel fuel w n (beta + 2 * d)%float index;
  p ← at_index ps index';
  Done (beta', index', resample_ps ++ [p], g').

Definition resample (fuel : nat) (pf : ParticleFilter) (g : G)
  : outcome (ParticleFilter * G) :=
  let n := num_particles pf in
  '(w, maxWeight) ← for_range n (max_weight_body (particles pf)) ([], DBL_MIN);
  if n - 1 <? 0 then Undefined
  else
    let '(index, g1) := uniform_int_distribution 0 (n - 1) g in
    '(_, _, resample_ps, g2) ←
      for_range n (resample_body fuel (particles pf) w n maxWeight)
        (0%float, index, [], g1);
    Done (mkParticleFilter n resample_ps (is_initialized pf), g2).

(** ** The diagnostic accessors *)

Definition SetAssociations (particle : Particle) (associations0 : list Z)
    (sense_x0 sense_y0 : list float) : Particle :=
  mkParticle (id particle) (x particle) (y particle) (theta particle)
    (weight particle) associations0 sense_x0 sense_y0.

(** [ss << v] for an [int]: the decimal digits, with a minus sign below 0. *)
Definition ostream_int (v : Z) : string :=
  NilZero.string_of_int (Z.to_int v).

(** [copy(v.begin(), v.end(), ostream_iterator<T>(ss, " "))] followed by
    [ss.str()]: every element, each followed by the delimiter. *)
Definition ostream_copy {A} (show : A → string) (v : list A) : string :=
  foldl (λ s a, s +:+ show a +:+ " ") "" v.

(** [a - b] on [size_t]. *)
Definition size_t_sub (a b : Z) : Z := (a - b) mod 2 ^ 64.

(** [s.substr(0, count)]: the first [count] characters, or all of [s] when
    it is shorter. *)
Fixpoint substr0 (s : string) (count : Z) : string :=
  match s with
  | EmptyString => EmptyString
  | String c s' =>
      if 0 <? count then String c (substr0 s' (count - 1)) else EmptyString
  end.

Definition trim_last (s : string) : string :=
  substr0 s (size_t_sub (Z.of_nat (String.length s)) 1).

Definition getAssociations (best : Particle) : string :=
  trim_last (ostream_copy ostream_int (associations best)).

Definition getSenseCoord (best : Particle) (coord : string) : string :=
  let v := if String.eqb coord "X" then sense_x best else sense_y best in
  trim_last (ostream_copy ostream_float v).

End Filter.

(** ** Vocabulary of the properties *)

Section Vocabulary.

Context {libm : Libm} {G : Type} {rng : RandomEngine G}.

Implicit Types (pf : ParticleFilter) (p : Particle) (g : G).

(** The population invariant of the data model. *)
Definition population_ok pf : Prop :=
  Z.of_nat (length (particles pf)) = num_particles pf.

(** Squared distance from the point [(ox, oy)] to the landmark [lm]. *)
Definition sq_dist_to (ox oy : float) (lm : LandmarkObs) : float :=
  sq_dist ox oy (obs_x lm) (obs_y lm).

(** The nearest-neighbour loops only ever take a landmark whose squared
    distance is below the initial [minDist]. *)
Definition selectable (ox oy : float) (lm : LandmarkObs) : Prop :=
  (sq_dist_to ox oy lm <? DBL_MAX)%float = true.

(** [lm], at index [k] of [preds], is the nearest landmark to [(ox, oy)]:
    no landmark is strictly nearer, and every landmark before [k] is
    strictly farther (or cannot be compared), so the lowest index wins a
    tie. *)
Definition first_nearest (preds : list LandmarkObs) (ox oy : float)
    (k : nat) (lm : LandmarkObs) : Prop :=
  preds !! k = Some lm
  ∧ selectable ox oy lm
  ∧ (∀ (j : nat) lm', preds !! j = Some lm' →
       (sq_dist_to ox oy lm' <? sq_dist_to ox oy lm)%float = false)
  ∧ (∀ (j : nat) lm', (j < k)%nat → preds !! j = Some lm' →
       (sq_dist_to ox oy lm' <=? sq_dist_to ox oy lm)%float = false).

(** The candidate set of a particle, in the words of the spec: the
    landmarks of the map whose distance to the particle is at most
    [sensor_range], each as the observation the program builds from it. *)
Definition candidates (sensor_range : float) p
    (map_landmarks : list single_landmark_s) : list LandmarkObs :=
  (λ lm, mkLandmarkObs (id_i lm) (x_f lm) (y_f lm))
  <$> filter (λ lm, (dist (x p) (y p) (x_f lm) (y_f lm)
                     <=? sensor_range)%float = true) map_landmarks.

(** A text that a [std::string] can hold: its length is a [size_t]. *)
Definition fits_size_t (s : string) : Prop :=
  Z.of_nat (String.length s) < 2 ^ 64.

(** The largest weight as the first loop of [resample] tracks it. *)
Definition running_max (m : float) (ps : list Particle) : float :=
  foldl (λ m p, if (m <? weight p)%float then weight p else m) m ps.

(** The filters a driver can hold once [init] has run on a new filter, one
    with no particle that is not initialized (whatever [num_particles] the
    constructor left in it, [init] overwrites it): every later call of a
    member function that returns leads to another such filter. *)
Inductive reachable : ParticleFilter → Prop :=
  | reach_init x0 y0 theta0 std pf g pf' g' :
      is_initialized pf = false →
      particles pf = [] →
      init x0 y0 theta0 std pf g = Done (pf', g') →
      reachable pf'
  | reach_init_again x0 y0 theta0 std pf g pf' g' :
      reachable pf →
      init x0 y0 theta0 std pf g = Done (pf', g') →
      reachable pf'
  | reach_prediction delta_t std_pos velocity yaw_rate pf g pf' g' :
      reachable pf →
      prediction delta_t std_pos velocity yaw_rate pf g = Done (pf', g') →
      reachable pf'
  | reach_updateWeights sensor_range std_landmark observations map_landmarks
      pf pf' :
      reachable pf →
      updateWeights sensor_range std_landmark observations map_landmarks pf
      = Done pf' →
      reachable pf'
  | reach_resample fuel pf g pf' g' :
      reachable pf →
      resample fuel pf g = Done (pf', g') →
      reachable pf'.

(** What the loop of [prediction] leaves in slot [k] of a population that
    held [p] there when the call began with generator [g]. *)
Definition predicted std_pos (delta_t velocity yaw_rate : float) (k : nat) g p
  : Particle :=
  (add_noise std_pos (move delta_t velocity yaw_rate p)
     (noise_gen std_pos k g)).1.

(** The three pose draws of one round of [init], in the order the program
    makes them, and the generator they leave. *)
Definition draw_pose (x0 y0 theta0 : float) (std : array3) g
  : float * float * float * G :=
  let '(sx, sy, sth) := std in
  let '(px, g1) := normal_distribution x0 sx g in
  let '(py, g2) := normal_distribution y0 sy g1 in
  let '(pt, g3) := normal_distribution theta0 sth g2 in
  (px, py, pt, g3).

(** The generator after [k] rounds of the loop of [init]. *)
Fixpoint pose_gen (x0 y0 theta0 : float) (std : array3) (k : nat) g : G :=
  match k with
  | O => g
  | Datatypes.S k' =>
      (draw_pose x0 y0 theta0 std (pose_gen x0 y0 theta0 std k' g)).2
  end.

(** The generator after [k] draws of [dist_w] in [resample]. *)
Fixpoint wheel_gen (maxWeight : float) (k : nat) g : G :=
  match k with
  | O => g
  | Datatypes.S k' =>
      (uniform_real_distribution 0%float maxWeight (wheel_gen maxWeight k' g)).2
  end.

(** Two particles that differ in their weight at most. *)
Definition same_but_weight p q : Prop :=
  id p = id q ∧ x p = x q ∧ y p = y q ∧ theta p = theta q
  ∧ associations p = associations q
  ∧ sense_x p = sense_x q ∧ sense_y p = sense_y q.

(** Two observations at the same point. *)
Definition same_point (o o' : LandmarkObs) : Prop :=
  obs_x o = obs_x o' ∧ obs_y o = obs_y o'.

(** A text without a space. *)
Fixpoint space_free (s : string) : bool :=
  match s with
  | EmptyString => true
  | String c s' => negb (Ascii.eqb c Ascii.Space) && space_free s'
  end.

(** The fields of a text that single spaces separate, as a reader of the
    diagnostic output takes them apart. *)
Fixpoint fields (s : string) : list string :=
  match s with
  | EmptyString => [EmptyString]
  | String c s' =>
      if Ascii.eqb c Ascii.Space then EmptyString :: fields s'
      else match fields s' with
           | w :: ws => String c w :: ws
           | [] => [String c EmptyString]
           end
  end.

(** Reading a decimal integer. *)
Definition read_int (s : string) : option Z :=
  Z.of_int <$> NilZero.int_of_string s.

End Vocabulary.

(** ** Executable stand-ins for the libraries

    The properties below hold for every [Libm], [RandomEngine] and
    [OStream].  To run the model on concrete filters it needs one of each;
    these are small and computable, and make no claim to agree with a
    particular C++ library. *)

Definition poly_sin (t : float) : float :=
  (t - t * t * t / 6 + t * t * t * t * t / 120)%float.

Definition poly_cos (t : float) : float :=
  (1 - t * t / 2 + t * t * t * t / 24)%float.

(** [(1 + t / 1024) ^ 1024], by ten squarings. *)
Definition poly_exp (t : float) : float :=
  Nat.iter 10 (λ u, (u * u)%float) (1 + t / 1024)%float.

(** Low-order Taylor polynomials for [sin] and [cos], and the compound
    approximation of [exp]. *)
Definition poly_libm : Libm :=
  {| sin := poly_sin; cos := poly_cos; exp := poly_exp |}.

(** The step of [std::minstd_rand0]. *)
Definition minstd_rand0 (s : Z) : Z := (16807 * s) mod 2147483647.

Definition float_of_Z (z : Z) : float := of_uint63 (Uint63.of_Z z).

(** The engine output scaled into the unit interval. *)
Definition canonical (s : Z) : float := (float_of_Z s / 2147483647)%float.

Definition lcg_uniform_int (a b s : Z) : Z * Z :=
  let s' := minstd_rand0 s in (a + s' mod (b - a + 1), s').

Definition lcg_uniform_real (a b : float) (s : Z) : float * Z :=
  let s' := minstd_rand0 s in ((a + (b - a) * canonical s')%float, s').

(** A draw centred on [mean] and scaled by [stddev]; it is not Gaussian. *)
Definition lcg_normal (mean stddev : float) (s : Z) : float * Z :=
  let s' := minstd_rand0 s in
  ((mean + stddev * (canonical s' - 0.5))%float, s').

#[export] Instance lcg_engine : RandomEngine Z.
Proof.
  refine {| normal_distribution := lcg_normal;
            uniform_int_distribution := lcg_uniform_int;
            uniform_real_distribution := lcg_uniform_real |}.
  intros a b g Hab. unfold lcg_uniform_int. simpl.
  pose proof (Z.mod_pos_bound (minstd_rand0 g) (b - a + 1)). lia.
Defined.

(** The integer part of a float, rounded toward zero; 0 where there is
    none. *)
Definition float_trunc (f : float) : Z :=
  match Prim2SF f with
  | S754_finite s m e =>
      let z := Z.shiftl (Z.pos m) e in if s then - z else z
  | _ => 0
  end.

(** Prints the integer part in decimal, which is what the default stream
    format prints for a whole number of at most six digits. *)
Definition integral_ostream : OStream :=
  {| ostream_float := λ f, NilZero.string_of_int (Z.to_int (float_trunc f)) |}.

(** ** Concrete filters

    The runs on these use the stand-ins [poly_libm], [lcg_engine] (seeded
    with 1) and [integral_ostream]. *)

(** Modelled from the spec: the constructor is declared in
    [particle_filter.h], which is not among the sources; by the lifecycle
    of the spec a filter is constructed once, before [init] seeds its
    population, so a new filter holds no particle and is not initialized. *)
Definition new_filter : ParticleFilter := mkParticleFilter 0 [] false.

(** The result of a run that is known to return. *)
Definition result {A} (d : A) (o : outcome A) : A :=
  match o with Done a => a | _ => d end.

(** The filter after [init(6, 2, 0, {0.5, 0.5, 0.125})] on a new one. *)
Definition started : ParticleFilter :=
  Eval vm_compute in
    (result (new_filter, 1)
       (init (rng := lcg_engine) 6 2 0 (0.5, 0.5, 0.125)%float new_filter 1)).1.

(** A population of two particles with weights 1 and 0.5. *)
Definition first_particle : Particle := mkParticle 0 1 2 0.5 1 [] [] [].
Definition second_particle : Particle := mkParticle 1 4 4 0.25 0.5 [] [] [].
Definition two_particles : ParticleFilter :=
  mkParticleFilter 2 [first_particle; second_particle] true.

(** A map with two landmarks near the two particles and one far away, and
    two observations in the vehicle frame. *)
Definition example_map : list single_landmark_s :=
  [mkLandmark 1 3 2; mkLandmark 2 1 5; mkLandmark 3 400 400].
Definition far_map : list single_landmark_s := [mkLandmark 3 400 400].
Definition example_observations : list LandmarkObs :=
  [mkLandmarkObs 0 2 0; mkLandmarkObs 0 0 3].

(** The population [resample] returns for [two_particles]. *)
Definition resampled : ParticleFilter * Z :=
  Eval vm_compute in
    result (two_particles, 1) (resample (rng := lcg_engine) 10 two_particles 1).

(** A population of [num_particles = 100] particles whose weights are all
    zero, as a weighting pass leaves it when every likelihood underflows. *)
Definition zero_weights : ParticleFilter :=
  mkParticleFilter 100 (replicate 100 (mkParticle 0 6 2 0 0 [] [] [])) true.

(** An observation so far from the origin that its squared distance to a
    landmark there is beyond the largest double. *)
Definition far_observation : LandmarkObs := mkLandmarkObs 3 0x1p+600 0.
Definition origin_landmark : LandmarkObs := mkLandmarkObs 7 0 0.

(** A filter whose [num_particles] says 3 while it holds two particles. *)
Definition short_filter : ParticleFilter :=
  mkParticleFilter 3 [first_particle; second_particle] true.

(** [two_particles] with other weights, and the observations of
    [example_observations] under other ids. *)
Definition reweighted_particles : ParticleFilter :=
  mkParticleFilter 2
    [mkParticle 0 1 2 0.5 0.25 [] [] []; mkParticle 1 4 4 0.25 8 [] [] []] true.
Definition labelled_observations : list LandmarkObs :=
  [mkLandmarkObs 5 2 0; mkLandmarkObs 9 0 3].

(** Two particles whose weights are NaN. *)
Definition nan_weights : ParticleFilter :=
  mkParticleFilter 2
    [mkParticle 0 1 2 0.5 nan [] [] []; mkParticle 1 4 4 0.25 nan [] [] []]
    true.

(** One particle at the origin with heading 0, and a map whose only
    landmark lies at infinity on the x axis. *)
Definition lone_particle : Particle := mkParticle 0 0 0 0 1 [] [] [].
Definition lone_filter : ParticleFilter :=
  mkParticleFilter 1 [lone_particle] true.
Definition unbounded_map : list single_landmark_s := [mkLandmark 1 infinity 0].

(** ** Order facts about binary64 comparison

    [<?] and [<=?] on [float] are specified through [SFcompare]; a NaN
    compares with nothing. *)

Ltac sf_cases :=
  repeat match goal with
  | |- context [Pos.compare_cont Eq ?a ?b] =>
      change (Pos.compare_cont Eq a b) with (Pos.compare a b);
      destruct (Pos.compare_spec a b)
  | |- context [Z.compare ?a ?b] => destruct (Z.compare_spec a b)
  end.

Lemma SFleb_ltb_trans a b c :
  SFleb a b = true → SFltb b c = true → SFltb a c = true.
Proof.
  unfold SFleb, SFltb, SFcompare.
  destruct a as [[]|[]| |[] ma ea], b as [[]|[]| |[] mb eb],
    c as [[]|[]| |[] mc ec]; try (simpl; congruence);
    sf_cases; simpl; intros; try discriminate; try reflexivity; lia.
Qed.

Lemma SFltb_leb a b : SFltb a b = true → SFleb a b = true.
Proof. unfold SFleb, SFltb. by destruct (SFcompare a b) as [[]|]. Qed.

Lemma SFltb_irrefl a : SFltb a a = false.
Proof.
  unfold SFltb, SFcompare. destruct a as [[]|[]| |[] ma ea]; try reflexivity.
  all: rewrite Z.compare_refl;
    change (Pos.compare_cont Eq ma ma) with (Pos.compare ma ma);
    by rewrite Pos.compare_refl.
Qed.

Lemma float_ltb_irrefl (a : float) : (a <? a)%float = false.
Proof. rewrite ltb_spec. apply SFltb_irrefl. Qed.

Lemma float_ltb_leb (a b : float) :
  (a <? b)%float = true → (a <=? b)%float = true.
Proof. rewrite ltb_spec, leb_spec. apply SFltb_leb. Qed.

Lemma float_leb_ltb_trans (a b c : float) :
  (a <=? b)%float = true → (b <? c)%float = true → (a <? c)%float = true.
Proof. rewrite !ltb_spec, leb_spec. apply SFleb_ltb_trans. Qed.

Lemma float_ltb_trans (a b c : float) :
  (a <? b)%float = true → (b <? c)%float = true → (a <? c)%float = true.
Proof. intros Hab. apply float_leb_ltb_trans, float_ltb_leb, Hab. Qed.

Lemma SFleb_total a b c :
  SFltb a c = true → SFltb b c = true → SFltb b a = false → SFleb a b = true.
Proof.
  unfold SFleb, SFltb.
  destruct a as [[]|[]| |[] ma ea]; try (intros; discriminate);
  destruct b as [[]|[]| |[] mb eb]; try (intros; discriminate);
  intros _ _; unfold SFcompare; try (intros; discriminate); try reflexivity;
    sf_cases; simpl; intros; try discriminate; try reflexivity; lia.
Qed.

(** Two floats below a third are comparable: one that is not strictly
    above the other is at most the other. *)
Lemma float_leb_total (a b c : float) :
  (a <? c)%float = true → (b <? c)%float = true →
  (b <? a)%float = false → (a <=? b)%float = true.
Proof. rewrite !ltb_spec, leb_spec. apply SFleb_total. Qed.

(** A zero of either sign lies below every float that is above [+0]. *)
Lemma float_zero_ltb (w b : float) :
  (w =? 0)%float = true → (0 <? b)%float = true → (w <? b)%float = true.
Proof.
  rewrite FloatAxioms.eqb_spec, !ltb_spec.
  change (Prim2SF 0) with (S754_zero false).
  unfold SFeqb, SFltb, SFcompare.
  destruct (Prim2SF w) as [[]|[]| |[] mw ew],
    (Prim2SF b) as [[]|[]| |[] mb eb]; try discriminate; reflexivity.
Qed.

(** Subtracting a zero of either sign from a float above it changes
    nothing. *)
Lemma float_sub_zero (w b : float) :
  (w =? 0)%float = true → (w <? b)%float = true → (b - w)%float = b.
Proof.
  rewrite FloatAxioms.eqb_spec, ltb_spec. intros Hz Hlt.
  apply Prim2SF_inj. rewrite sub_spec.
  change (Prim2SF 0) with (S754_zero false) in Hz.
  unfold SF64sub, SFsub, SFeqb, SFltb, SFcompare in *.
  destruct (Prim2SF w) as [[]|[]| |[] mw ew],
    (Prim2SF b) as [[]|[]| |[] mb eb]; try discriminate; reflexivity.
Qed.

(** [DBL_MIN] is above every zero, so a zero never replaces it as the
    running maximum. *)
Lemma float_DBL_MIN_zero (w : float) :
  (w =? 0)%float = true → (DBL_MIN <? w)%float = false.
Proof.
  rewrite FloatAxioms.eqb_spec, ltb_spec.
  change (Prim2SF 0) with (S754_zero false).
  let v := eval vm_compute in (Prim2SF DBL_MIN) in
  change (Prim2SF DBL_MIN) with v.
  unfold SFeqb, SFltb, SFcompare.
  destruct (Prim2SF w) as [[]|[]| |[] mw ew]; try discriminate; reflexivity.
Qed.

(** ** Vectors and counted loops *)

Lemma at_index_Done {A} (v : list A) (i : Z) (a : A) :
  at_index v i = Done a ↔ 0 ≤ i ∧ v !! Z.to_nat i = Some a.
Proof.
  unfold at_index. destruct (Z.ltb_spec i 0) as [Hneg|Hpos].
  - split; [done | lia].
  - destruct (v !! Z.to_nat i) as [b|]; split.
    + by intros [= ->].
    + by intros [_ [= ->]].
    + done.
    + by intros [_ [=]].
Qed.

Lemma at_index_nat {A} (v : list A) (k : nat) (a : A) :
  v !! k = Some a → at_index v (Z.of_nat k) = Done a.
Proof. intros H. apply at_index_Done. rewrite Nat2Z.id. split; [lia | done]. Qed.

Lemma set_index_nat {A} (v : list A) (k : nat) (a : A) :
  (k < length v)%nat → set_index v (Z.of_nat k) a = Done (<[k := a]> v).
Proof.
  intros H. unfold set_index.
  destruct (Z.ltb_spec (Z.of_nat k) 0); [lia |].
  destruct (Z.leb_spec (Z.of_nat (length v)) (Z.of_nat k)); [lia |].
  simpl. by rewrite Nat2Z.id.
Qed.

(** Total correctness of a counted loop from an invariant whose rounds all
    finish. *)
Lemma for_loop_total {S} (P : nat → S → Prop) (body : Z → S → outcome S)
    (count : nat) :
  ∀ (k : nat) (s : S),
    P k s →
    (∀ j s, (k ≤ j < k + count)%nat → P j s →
       ∃ s', body (Z.of_nat j) s = Done s' ∧ P (Datatypes.S j) s') →
    ∃ s', for_loop count (Z.of_nat k) body s = Done s' ∧ P (k + count)%nat s'.
Proof.
  induction count as [|count IH]; intros k s HP Hbody; simpl.
  - exists s. by rewrite Nat.add_0_r.
  - destruct (Hbody k s) as (s1 & Hs1 & HP1); [lia | done |].
    rewrite Hs1. simpl.
    replace (Z.of_nat k + 1) with (Z.of_nat (Datatypes.S k)) by lia.
    destruct (IH (Datatypes.S k) s1 HP1) as (s2 & Hs2 & HP2).
    + intros j s' Hj. apply Hbody. lia.
    + exists s2. split; [done |].
      by replace (k + Datatypes.S count)%nat
        with (Datatypes.S k + count)%nat by lia.
Qed.

(** Partial correctness of a counted loop: the invariant holds of whatever
    state a finished loop returns. *)
Lemma for_loop_partial {S} (P : nat → S → Prop) (body : Z → S → outcome S)
    (count : nat) :
  ∀ (k : nat) (s s' : S),
    P k s →
    (∀ j s s', (k ≤ j < k + count)%nat → P j s →
       body (Z.of_nat j) s = Done s' → P (Datatypes.S j) s') →
    for_loop count (Z.of_nat k) body s = Done s' → P (k + count)%nat s'.
Proof.
  induction count as [|count IH]; intros k s s' HP Hbody; simpl.
  - intros [= <-]. by rewrite Nat.add_0_r.
  - destruct (body (Z.of_nat k) s) as [s1| |] eqn:Hs1; simpl; try done.
    replace (Z.of_nat k + 1) with (Z.of_nat (Datatypes.S k)) by lia.
    intros Hrun.
    replace (k + Datatypes.S count)%nat
      with (Datatypes.S k + count)%nat by lia.
    apply (IH (Datatypes.S k) s1 s'); [| | done].
    + apply (Hbody k s s1); [lia | done | done].
    + intros j t t' Hj. apply Hbody. lia.
Qed.

(** A counted loop whose rounds stay within what C++ defines does so as a
    whole. *)
Lemma for_loop_defined {S} (P : nat → S → Prop) (body : Z → S → outcome S)
    (count : nat) :
  ∀ (k : nat) (s : S),
    P k s →
    (∀ j s, P j s →
       body (Z.of_nat j) s ≠ Undefined
       ∧ ∀ s', body (Z.of_nat j) s = Done s' → P (Datatypes.S j) s') →
    for_loop count (Z.of_nat k) body s ≠ Undefined.
Proof.
  induction count as [|count IH]; intros k s HP Hbody; simpl; [done |].
  destruct (Hbody k s HP) as [Hdef Hnext].
  destruct (body (Z.of_nat k) s) as [s1| |]; simpl; [| done | done].
  replace (Z.of_nat k + 1) with (Z.of_nat (Datatypes.S k)) by lia.
  apply IH; [by apply Hnext | done].
Qed.

Section Properties.

Context {libm : Libm} {G : Type} {rng : RandomEngine G} {os : OStream}.

Implicit Types (pf : ParticleFilter) (p : Particle) (g : G).

(** ** [init] *)

Lemma init_loop_length x0 y0 theta0 std (count : nat) :
  ∀ (k : nat) (ps : list Particle) g,
    ∃ ps' g', for_loop count (Z.of_nat k) (init_body x0 y0 theta0 std) (ps, g)
              = Done (ps', g')
              ∧ length ps' = (length ps + count)%nat.
Proof.
  intros k ps g.
  destruct (for_loop_total
              (λ j st, length st.1 = (length ps + (j - k))%nat)
              (init_body x0 y0 theta0 std) count k (ps, g))
    as ([ps' g'] & Hrun & Hlen).
  - simpl. lia.
  - intros j [qs h] Hj Hq. simpl in Hq. unfold init_body.
    destruct std as [[sx sy] sth].
    destruct (normal_distribution x0 sx h) as [px g1].
    destruct (normal_distribution y0 sy g1) as [py g2].
    destruct (normal_distribution theta0 sth g2) as [pt g3].
    eexists. split; [done |]. simpl. rewrite length_app. simpl. lia.
  - exists ps', g'. split; [done |]. simpl in Hlen. lia.
Qed.

Lemma init_fresh x0 y0 theta0 std pf g :
  is_initialized pf = false →
  ∃ ps g', init x0 y0 theta0 std pf g = Done (mkParticleFilter 100 ps true, g')
           ∧ length ps = (length (particles pf) + 100)%nat.
Proof.
  intros Hinit. unfold init, for_range. rewrite Hinit.
  destruct (init_loop_length x0 y0 theta0 std (Z.to_nat 100) 0 (particles pf) g)
    as (ps & g' & Hrun & Hlen).
  change (Z.of_nat 0) with 0 in Hrun. rewrite Hrun. simpl.
  exists ps, g'. split; [done |]. rewrite Hlen. done.
Qed.

(** ** [prediction] *)

Lemma add_noise_gen std_pos p g :
  (add_noise std_pos p g).2 = (draw_noise std_pos g).2.
Proof.
  unfold add_noise. by destruct (draw_noise std_pos g) as [[[nx ny] nt] g'].
Qed.

Lemma prediction_loop delta_t std_pos velocity yaw_rate (ps : list Particle) g :
  ∃ ps',
    for_loop (length ps) 0
      (prediction_body delta_t std_pos velocity yaw_rate) (ps, g)
    = Done (ps', noise_gen std_pos (length ps) g)
    ∧ length ps' = length ps
    ∧ ∀ (k : nat) p, ps !! k = Some p →
        ps' !! k = Some (predicted std_pos delta_t velocity yaw_rate k g p).
Proof.
  destruct (for_loop_total
    (λ j (st : list Particle * G),
       length st.1 = length ps ∧ st.2 = noise_gen std_pos j g ∧
       ∀ (k : nat) p, ps !! k = Some p →
         st.1 !! k = Some (if decide (k < j)%nat
                           then predicted std_pos delta_t velocity yaw_rate k g p
                           else p))
    (prediction_body delta_t std_pos velocity yaw_rate)
    (length ps) 0%nat (ps, g)) as ([ps' g'] & Hrun & Hlen & Hg & Hall).
  - simpl. repeat split. intros k p Hk. done.
  - intros j [qs h] Hj (Hlen & Hg & Hall). simpl in *.
    destruct (lookup_lt_is_Some_2 ps j) as [p Hp]; [lia |].
    pose proof (Hall j p Hp) as Hq. case_decide; [lia |].
    unfold prediction_body. rewrite (at_index_nat _ _ _ Hq). simpl.
    destruct (add_noise std_pos (move delta_t velocity yaw_rate p) h)
      as [p' h'] eqn:Hnoise.
    rewrite set_index_nat by lia. simpl.
    eexists. split; [done |]. simpl. rewrite length_insert.
    split; [done |]. split.
    + rewrite <- Hg.
      pose proof (add_noise_gen std_pos (move delta_t velocity yaw_rate p) h)
        as Hgen.
      by rewrite Hnoise in Hgen.
    + intros k q Hk. destruct (decide (k = j)) as [-> | Hne].
      * rewrite list_lookup_insert_eq by lia.
        case_decide; [| lia]. unfold predicted.
        assert (q = p) as -> by congruence.
        by rewrite <- Hg, Hnoise.
      * rewrite list_lookup_insert_ne by done.
        rewrite (Hall k q Hk). by repeat case_decide; try lia.
  - simpl in *. subst g'. exists ps'. split; [done |]. split; [done |].
    intros k p Hk. rewrite (Hall k p Hk).
    case_decide; [done |]. apply lookup_lt_Some in Hk. lia.
Qed.

Lemma prediction_run delta_t std_pos velocity yaw_rate pf g :
  population_ok pf →
  ∃ ps',
    prediction delta_t std_pos velocity yaw_rate pf g
    = Done (mkParticleFilter (num_particles pf) ps' (is_initialized pf),
            noise_gen std_pos (length (particles pf)) g)
    ∧ length ps' = length (particles pf)
    ∧ ∀ (k : nat) p, particles pf !! k = Some p →
        ps' !! k = Some (predicted std_pos delta_t velocity yaw_rate k g p).
Proof.
  intros Hok. unfold prediction, for_range. rewrite <- Hok, Nat2Z.id.
  destruct (prediction_loop delta_t std_pos velocity yaw_rate (particles pf) g)
    as (ps' & Hrun & Hlen & Hall).
  rewrite Hrun. simpl. by exists ps'.
Qed.

(** ** The nearest-neighbour loop *)

Lemma nearest_snoc preds lm ox oy :
  nearest (preds ++ [lm]) ox oy = nearest_step ox oy (nearest preds ox oy) lm.
Proof. unfold nearest. by rewrite foldl_app. Qed.

(** What the loop of [updateWeights] has found after the last landmark:
    the first of the nearest landmarks, or its initial state when no squared
    distance is below [DBL_MAX]. *)
Lemma nearest_spec preds ox oy :
  (∃ (k : nat) lm,
      first_nearest preds ox oy k lm
      ∧ nearest preds ox oy
        = (sq_dist_to ox oy lm, obs_id lm, obs_x lm, obs_y lm))
  ∨ ((∀ (j : nat) lm, preds !! j = Some lm →
        (sq_dist_to ox oy lm <? DBL_MAX)%float = false)
     ∧ nearest preds ox oy = (DBL_MAX, -1, 0%float, 0%float)).
Proof.
  induction preds as [|a preds IH] using rev_ind.
  { right. split; [intros j lm Hj; by rewrite lookup_nil in Hj | done]. }
  rewrite nearest_snoc.
  assert (Hlast : (preds ++ [a]) !! length preds = Some a).
  { by rewrite lookup_app_r, Nat.sub_diag by lia. }
  assert (Hsplit : ∀ (j : nat) lm', (preds ++ [a]) !! j = Some lm' →
            preds !! j = Some lm' ∨ lm' = a).
  { intros j lm' Hj. apply lookup_app_Some in Hj as [Hj | [_ Hj]]; [by left |].
    right. apply list_lookup_singleton_Some in Hj as [_ Hj]. done. }
  destruct IH as [(k & lm & (Hk & Hsel & Hmin & Hfirst) & Hrun) | [Hnone Hrun]];
    rewrite Hrun; unfold nearest_step;
    change (sq_dist ox oy (obs_x a) (obs_y a)) with (sq_dist_to ox oy a);
    destruct (sq_dist_to ox oy a <? _)%float eqn:Hlt.
  - (* a strictly nearer landmark replaces the one held *)
    left. exists (length preds), a. split; [| done].
    split; [done |]. split; [| split].
    + by apply float_ltb_trans with (sq_dist_to ox oy lm).
    + intros j lm' Hj. destruct (Hsplit j lm' Hj) as [Hj' | ->];
        [| apply float_ltb_irrefl].
      destruct (sq_dist_to ox oy lm' <? sq_dist_to ox oy a)%float eqn:Hc;
        [| done].
      rewrite <- (Hmin j lm' Hj'). symmetry.
      by apply float_ltb_trans with (sq_dist_to ox oy a).
    + intros j lm' Hjk Hj. rewrite lookup_app_l in Hj by done.
      destruct (sq_dist_to ox oy lm' <=? sq_dist_to ox oy a)%float eqn:Hc;
        [| done].
      rewrite <- (Hmin j lm' Hj). symmetry.
      by apply float_leb_ltb_trans with (sq_dist_to ox oy a).
  - (* the landmark held stays *)
    left. exists k, lm. split; [| done].
    split; [by apply lookup_app_l_Some |]. split; [done |]. split.
    + intros j lm' Hj. destruct (Hsplit j lm' Hj) as [Hj' | ->];
        [by apply (Hmin j) | done].
    + intros j lm' Hjk Hj. apply (Hfirst j lm' Hjk).
      apply lookup_lt_Some in Hk. by rewrite lookup_app_l in Hj by lia.
  - (* the first landmark below [DBL_MAX] *)
    left. exists (length preds), a. split; [| done].
    split; [done |]. split; [done |]. split.
    + intros j lm' Hj. destruct (Hsplit j lm' Hj) as [Hj' | ->];
        [| apply float_ltb_irrefl].
      destruct (sq_dist_to ox oy lm' <? sq_dist_to ox oy a)%float eqn:Hc;
        [| done].
      rewrite <- (Hnone j lm' Hj'). symmetry.
      by apply float_ltb_trans with (sq_dist_to ox oy a).
    + intros j lm' Hjk Hj. rewrite lookup_app_l in Hj by done.
      destruct (sq_dist_to ox oy lm' <=? sq_dist_to ox oy a)%float eqn:Hc;
        [| done].
      rewrite <- (Hnone j lm' Hj). symmetry.
      by apply float_leb_ltb_trans with (sq_dist_to ox oy a).
  - (* still nothing below [DBL_MAX] *)
    right. split; [| done].
    intros j lm' Hj. destruct (Hsplit j lm' Hj) as [Hj' | ->];
      [by apply (Hnone j) | done].
Qed.

(** At most one landmark is the first nearest one. *)
Lemma first_nearest_unique preds ox oy k1 lm1 k2 lm2 :
  first_nearest preds ox oy k1 lm1 →
  first_nearest preds ox oy k2 lm2 →
  k1 = k2 ∧ lm1 = lm2.
Proof.
  intros (Hk1 & Hsel1 & Hmin1 & Hfirst1) (Hk2 & Hsel2 & Hmin2 & Hfirst2).
  assert (k1 = k2) as ->.
  { destruct (Nat.lt_trichotomy k1 k2) as [Hlt | [-> | Hlt]]; [| done |].
    - pose proof (Hfirst2 k1 lm1 Hlt Hk1) as Hle.
      pose proof (Hmin1 k2 lm2 Hk2) as Hnlt.
      by rewrite (float_leb_total _ _ _ Hsel1 Hsel2 Hnlt) in Hle.
    - pose proof (Hfirst1 k2 lm2 Hlt Hk2) as Hle.
      pose proof (Hmin2 k1 lm1 Hk1) as Hnlt.
      by rewrite (float_leb_total _ _ _ Hsel2 Hsel1 Hnlt) in Hle. }
  split; [done | congruence].
Qed.

(** When some landmark is selectable the loop ends on the first nearest
    one. *)
Lemma nearest_selectable preds ox oy lm0 :
  lm0 ∈ preds → selectable ox oy lm0 →
  ∃ (k : nat) lm,
    first_nearest preds ox oy k lm
    ∧ nearest preds ox oy
      = (sq_dist_to ox oy lm, obs_id lm, obs_x lm, obs_y lm).
Proof.
  intros Hin Hsel.
  destruct (nearest_spec preds ox oy) as [Hfound | [Hnone _]]; [done |].
  apply list_elem_of_lookup in Hin as [j Hj].
  unfold selectable in Hsel. by rewrite (Hnone j lm0 Hj) in Hsel.
Qed.

(** ** [dataAssociation] *)

(** The loop of [dataAssociation] tracks the same minimum as the inline
    loop of [updateWeights], and from its first round on the observation
    carries the landmark id held so far. *)
Lemma assoc_loop preds o :
  ∃ o',
    foldl assoc_step (DBL_MAX, -1, o) preds
    = ((nearest preds (obs_x o) (obs_y o)).1.1.1,
       (nearest preds (obs_x o) (obs_y o)).1.1.2, o')
    ∧ obs_x o' = obs_x o ∧ obs_y o' = obs_y o
    ∧ (preds = [] → o' = o)
    ∧ (preds ≠ [] → obs_id o' = (nearest preds (obs_x o) (obs_y o)).1.1.2).
Proof.
  induction preds as [|a preds IH] using rev_ind.
  { exists o. by repeat split. }
  destruct IH as (o1 & Hrun & Hx & Hy & _ & _).
  rewrite foldl_app, Hrun, nearest_snoc. simpl.
  destruct (nearest preds (obs_x o) (obs_y o)) as [[[m mapId] p_x] p_y].
  unfold nearest_step. simpl. rewrite Hx, Hy.
  destruct (_ <? m)%float; simpl;
    (eexists; split; [reflexivity |]; simpl; repeat split; try done;
     by intros [_ [=]]%app_nil).
Qed.

Lemma associate_spec preds o :
  obs_x (associate preds o) = obs_x o
  ∧ obs_y (associate preds o) = obs_y o
  ∧ (preds = [] → associate preds o = o)
  ∧ (preds ≠ [] →
     obs_id (associate preds o) = (nearest preds (obs_x o) (obs_y o)).1.1.2).
Proof.
  unfold associate. destruct (assoc_loop preds o) as (o' & -> & H). exact H.
Qed.

(** ** [updateWeights] *)

(** The candidate landmarks are the landmarks of the map within range, in
    map order. *)
Lemma in_range_filter sensor_range particleX particleY landmarks :
  in_range sensor_range particleX particleY landmarks
  = (λ lm, mkLandmarkObs (id_i lm) (x_f lm) (y_f lm))
    <$> filter (λ lm, (dist particleX particleY (x_f lm) (y_f lm)
                       <=? sensor_range)%float = true) landmarks.
Proof.
  unfold in_range.
  enough (∀ acc,
    foldl (in_range_step sensor_range particleX particleY) acc landmarks
    = acc ++ ((λ lm, mkLandmarkObs (id_i lm) (x_f lm) (y_f lm))
              <$> filter (λ lm, (dist particleX particleY (x_f lm) (y_f lm)
                                 <=? sensor_range)%float = true) landmarks))
    as H by apply (H []).
  induction landmarks as [|lm lms IH]; intros acc; simpl.
  { by rewrite app_nil_r. }
  rewrite IH, filter_cons. unfold in_range_step.
  destruct (dist particleX particleY (x_f lm) (y_f lm) <=? sensor_range)%float
    eqn:Hd; case_decide; try done.
  by rewrite fmap_cons, <- app_assoc.
Qed.

Lemma updateWeights_loop sensor_range std_landmark observations landmarks
    (ps : list Particle) :
  for_loop (length ps) 0
    (updateWeights_body sensor_range std_landmark observations landmarks) ps
  = Done ((λ p, set_weight p
                  (weigh sensor_range std_landmark observations landmarks p))
          <$> ps).
Proof.
  set (f := λ p, set_weight p
                   (weigh sensor_range std_landmark observations landmarks p)).
  destruct (for_loop_total
    (λ j (qs : list Particle),
       length qs = length ps ∧
       ∀ (k : nat) p, ps !! k = Some p →
         qs !! k = Some (if decide (k < j)%nat then f p else p))
    (updateWeights_body sensor_range std_landmark observations landmarks)
    (length ps) 0%nat ps) as (ps' & Hrun & Hlen & Hall).
  - split; [done |]. intros k p Hk. done.
  - intros j qs Hj (Hlen & Hall).
    destruct (lookup_lt_is_Some_2 ps j) as [p Hp]; [lia |].
    pose proof (Hall j p Hp) as Hq. case_decide; [lia |].
    unfold updateWeights_body. rewrite (at_index_nat _ _ _ Hq). simpl.
    rewrite set_index_nat by lia.
    eexists. split; [done |]. rewrite length_insert. split; [done |].
    intros k q Hk. destruct (decide (k = j)) as [-> | Hne].
    + rewrite list_lookup_insert_eq by lia.
      case_decide; [| lia]. by assert (q = p) as -> by congruence.
    + rewrite list_lookup_insert_ne by done.
      rewrite (Hall k q Hk). by repeat case_decide; try lia.
  - change (Z.of_nat 0) with 0 in Hrun. rewrite Hrun. f_equal.
    apply list_eq. intros k. rewrite list_lookup_fmap.
    destruct (ps !! k) as [p|] eqn:Hk; simpl.
    + rewrite (Hall k p Hk). case_decide; [done |].
      apply lookup_lt_Some in Hk. lia.
    + apply lookup_ge_None. apply lookup_ge_None in Hk. lia.
Qed.

Lemma updateWeights_run sensor_range std_landmark observations landmarks pf :
  population_ok pf →
  updateWeights sensor_range std_landmark observations landmarks pf
  = Done (mkParticleFilter (num_particles pf)
            ((λ p, set_weight p
                     (weigh sensor_range std_landmark observations landmarks p))
             <$> particles pf)
            (is_initialized pf)).
Proof.
  intros Hok. unfold updateWeights, for_range. rewrite <- Hok, Nat2Z.id.
  by rewrite updateWeights_loop.
Qed.

(** A left fold that multiplies by a factor computed from each element is
    the product, in order, of the mapped factors. *)
Lemma foldl_product {A} (f : A → float) (l : list A) (w : float) :
  foldl (λ w a, (w * f a)%float) w l = foldl (λ w c, (w * c)%float) w (f <$> l).
Proof. revert w. induction l as [|a l IH]; intros w; simpl; [done | apply IH]. Qed.

Lemma in_range_none sensor_range particleX particleY landmarks :
  (∀ lm, lm ∈ landmarks →
     (dist particleX particleY (x_f lm) (y_f lm) <=? sensor_range)%float
     = false) →
  in_range sensor_range particleX particleY landmarks = [].
Proof.
  intros Hfar. rewrite in_range_filter.
  induction landmarks as [|lm lms IH]; [done |].
  rewrite filter_cons. case_decide as Hd.
  - rewrite Hfar in Hd; [done | apply list_elem_of_here].
  - apply IH. intros lm' Hin. apply Hfar. by apply list_elem_of_further.
Qed.

Lemma updateWeights_lookup sensor_range std_landmark observations landmarks
    pf (i : nat) p :
  population_ok pf →
  particles pf !! i = Some p →
  ∃ pf',
    updateWeights sensor_range std_landmark observations landmarks pf
    = Done pf'
    ∧ particles pf' !! i
      = Some (set_weight p
                (weigh sensor_range std_landmark observations landmarks p)).
Proof.
  intros Hok Hp. eexists. split; [by apply updateWeights_run |].
  simpl. by rewrite list_lookup_fmap, Hp.
Qed.

(** ** [resample] *)

Lemma max_weight_loop (ps : list Particle) (m0 : float) :
  for_loop (length ps) 0 (max_weight_body ps) ([], m0)
  = Done (weight <$> ps, running_max m0 ps).
Proof.
  destruct (for_loop_total
    (λ j (st : list float * float),
       st = (weight <$> take j ps, running_max m0 (take j ps)))
    (max_weight_body ps) (length ps) 0%nat ([], m0)) as (st & Hrun & Hst).
  - done.
  - intros j [w m] Hj [= -> ->].
    destruct (lookup_lt_is_Some_2 ps j) as [p Hp]; [lia |].
    unfold max_weight_body. rewrite (at_index_nat _ _ _ Hp). simpl.
    eexists. split; [done |].
    rewrite (take_S_r _ _ _ Hp), fmap_app. unfold running_max.
    by rewrite foldl_app.
  - change (Z.of_nat 0) with 0 in Hrun. rewrite Hrun, Hst. simpl.
    by rewrite firstn_all.
Qed.

Lemma running_max_zero (ps : list Particle) :
  Forall (λ p, (weight p =? 0)%float = true) ps →
  running_max DBL_MIN ps = DBL_MIN.
Proof.
  unfold running_max. induction 1 as [|p ps Hp _ IH]; simpl; [done |].
  by rewrite (float_DBL_MIN_zero _ Hp).
Qed.

(** On a wheel whose weights are all zero a positive [beta] never stops
    the [while]: the subtraction leaves it as it is. *)
Lemma wheel_zero_weights (w : list float) (n : Z) (beta : float) (fuel : nat) :
  Forall (λ wi, (wi =? 0)%float = true) w →
  Z.of_nat (length w) = n →
  (0 <? beta)%float = true →
  ∀ index, 0 ≤ index < n → wheel fuel w n beta index = OutOfFuel.
Proof.
  intros Hzero Hlen Hbeta.
  induction fuel as [|fuel IH]; intros index Hindex; simpl; [done |].
  destruct (lookup_lt_is_Some_2 w (Z.to_nat index)) as [wi Hwi]; [lia |].
  assert (at_index w index = Done wi) as ->
    by (apply at_index_Done; split; [lia | done]).
  simpl.
  assert ((wi =? 0)%float = true) as Hz.
  { rewrite Forall_forall in Hzero. apply Hzero.
    by eapply list_elem_of_lookup_2. }
  rewrite (float_zero_ltb _ _ Hz Hbeta).
  rewrite (float_sub_zero _ _ Hz (float_zero_ltb _ _ Hz Hbeta)).
  apply IH. apply Z.rem_bound_pos; lia.
Qed.

(** [resample] does not return from a population of zero weights unless
    the first draw of [dist_w] is itself not above zero. *)
Lemma resample_zero_weights pf g :
  population_ok pf →
  0 < num_particles pf →
  Forall (λ p, (weight p =? 0)%float = true) (particles pf) →
  (0 <? 0 + 2 * (uniform_real_distribution 0 DBL_MIN
                   (uniform_int_distribution 0 (num_particles pf - 1) g).2).1
  )%float = true →
  ∀ fuel, resample fuel pf g = OutOfFuel.
Proof.
  intros Hok Hpos Hzero Hdraw fuel.
  assert (Z.to_nat (num_particles pf) = length (particles pf)) as Hn
    by (unfold population_ok in Hok; lia).
  unfold resample, for_range. rewrite Hn, max_weight_loop. simpl.
  rewrite (running_max_zero _ Hzero).
  destruct (Z.ltb_spec (num_particles pf - 1) 0) as [Hneg | _]; [lia |].
  pose proof (uniform_int_in_range 0 (num_particles pf - 1) g) as Hindex.
  destruct (uniform_int_distribution 0 (num_particles pf - 1) g)
    as [index g1]. simpl in *.
  destruct (length (particles pf)) as [|count] eqn:Hcount; [lia |].
  simpl. destruct (uniform_real_distribution 0 DBL_MIN g1) as [d g2].
  simpl in *. rewrite wheel_zero_weights; [done | | | done | lia].
  - by apply Forall_fmap.
  - by rewrite length_fmap.
Qed.

(** Whatever [resample] returns was built by copying particles of the
    population it was given, one per round. *)
Lemma resample_loop_copies fuel (ps : list Particle) (w : list float) (n : Z)
    (maxWeight : float) (count : nat) st st' :
  for_loop count 0 (resample_body fuel ps w n maxWeight) st = Done st' →
  st.1.2 = [] →
  length st'.1.2 = count ∧ ∀ p, p ∈ st'.1.2 → p ∈ ps.
Proof.
  intros Hrun Hnil.
  pose proof (for_loop_partial
    (λ j (st : float * Z * list Particle * G),
       length st.1.2 = j ∧ ∀ p, p ∈ st.1.2 → p ∈ ps)
    (resample_body fuel ps w n maxWeight) count 0%nat st st') as H.
  apply H; [| | done]; clear H Hrun.
  - rewrite Hnil. split; [done |]. by intros p ?%not_elem_of_nil.
  - intros j [[[beta index] acc] g] s' _ [Hlen Hacc]. simpl in *.
    unfold resample_body.
    destruct (uniform_real_distribution 0 maxWeight g) as [d g'].
    destruct (wheel fuel w n (beta + 2 * d) index) as [[beta' index']| |];
      simpl; try done.
    destruct (at_index ps index') as [p| |] eqn:Hp; simpl; try done.
    intros [= <-]. simpl. rewrite length_app. simpl. split; [lia |].
    intros q [Hq | ->%list_elem_of_singleton]%elem_of_app; [by apply Hacc |].
    apply at_index_Done in Hp as [_ Hp]. by eapply list_elem_of_lookup_2.
Qed.

Lemma resample_Done fuel pf g pf' g' :
  resample fuel pf g = Done (pf', g') →
  num_particles pf' = num_particles pf
  ∧ is_initialized pf' = is_initialized pf
  ∧ length (particles pf') = Z.to_nat (num_particles pf)
  ∧ ∀ p, p ∈ particles pf' → p ∈ particles pf.
Proof.
  unfold resample.
  destruct (for_range _ (max_weight_body _) _) as [[w maxWeight]| |];
    simpl; try done.
  destruct (_ <? 0); [done |].
  destruct (uniform_int_distribution _ _ g) as [index g1].
  unfold for_range.
  destruct (for_loop _ _ (resample_body _ _ _ _ _) _)
    as [[[[beta index'] acc] g2]| |] eqn:Hloop; simpl; try done.
  intros [= <- <-]. simpl.
  apply resample_loop_copies in Hloop as [Hlen Hacc]; done.
Qed.

(** The [while] of [resample] keeps the index within the wheel. *)
Lemma wheel_defined (w : list float) (n : Z) (fuel : nat) :
  Z.of_nat (length w) = n →
  ∀ beta index, 0 ≤ index < n →
    wheel fuel w n beta index ≠ Undefined
    ∧ ∀ beta' index',
        wheel fuel w n beta index = Done (beta', index') → 0 ≤ index' < n.
Proof.
  intros Hlen.
  induction fuel as [|fuel IH]; intros beta index Hindex; simpl; [done |].
  destruct (lookup_lt_is_Some_2 w (Z.to_nat index)) as [wi Hwi]; [lia |].
  assert (at_index w index = Done wi) as ->
    by (apply at_index_Done; split; [lia | done]).
  simpl. destruct (wi <? beta)%float.
  - apply IH. apply Z.rem_bound_pos; lia.
  - split; [done |]. by intros beta' index' [= _ <-].
Qed.

(** On a filter that holds its [num_particles] particles, one at least,
    [resample] reads no vector out of its bounds and takes no remainder by
    zero: it returns, or its [while] goes on. *)
Lemma resample_defined fuel pf g :
  population_ok pf →
  0 < num_particles pf →
  resample fuel pf g ≠ Undefined.
Proof.
  intros Hok Hpos.
  assert (Z.to_nat (num_particles pf) = length (particles pf)) as Hn
    by (unfold population_ok in Hok; lia).
  unfold resample, for_range. rewrite Hn, max_weight_loop. simpl.
  destruct (Z.ltb_spec (num_particles pf - 1) 0) as [Hneg | _]; [lia |].
  pose proof (uniform_int_in_range 0 (num_particles pf - 1) g) as Hindex.
  destruct (uniform_int_distribution 0 (num_particles pf - 1) g)
    as [index g1]. simpl in Hindex.
  pose proof (for_loop_defined
    (λ (_ : nat) (st : float * Z * list Particle * G),
       0 ≤ st.1.1.2 < num_particles pf)
    (resample_body fuel (particles pf) (weight <$> particles pf)
       (num_particles pf) (running_max DBL_MIN (particles pf)))
    (length (particles pf)) 0%nat (0%float, index, [], g1)) as Hloop.
  change (Z.of_nat 0) with 0 in Hloop.
  destruct (for_loop _ 0 _ _) as [[[[beta index'] acc] g2]| |];
    simpl; [done | | done].
  exfalso. apply Hloop; [simpl; lia | | done]. clear Hloop.
  intros j [[[beta i] acc] h] Hi. simpl in Hi. unfold resample_body.
  destruct (uniform_real_distribution 0 _ h) as [d h'].
  destruct (wheel_defined (weight <$> particles pf) (num_particles pf) fuel
              ltac:(by rewrite length_fmap) (beta + 2 * d)%float i Hi)
    as [Hdef Hrange].
  destruct (wheel _ _ _ _ _) as [[beta' i']| |]; simpl; [| done | done].
  specialize (Hrange beta' i' eq_refl).
  destruct (lookup_lt_is_Some_2 (particles pf) (Z.to_nat i')) as [p Hp];
    [unfold population_ok in Hok; lia |].
  assert (at_index (particles pf) i' = Done p) as ->
    by (apply at_index_Done; split; [lia | done]).
  simpl. split; [done |]. by intros s' [= <-].
Qed.

(** ** The reachable filters *)

Lemma reachable_inv pf :
  reachable pf →
  population_ok pf ∧ num_particles pf = 100 ∧ is_initialized pf = true.
Proof.
  induction 1 as
    [x0 y0 theta0 std pf g pf' g' Hinit Hnil Hrun
    |x0 y0 theta0 std pf g pf' g' _ (Hok & Hn & Hinit) Hrun
    |delta_t std_pos velocity yaw_rate pf g pf' g' _ (Hok & Hn & Hinit) Hrun
    |sensor_range std_landmark observations map_landmarks pf pf' _
       (Hok & Hn & Hinit) Hrun
    |fuel pf g pf' g' _ (Hok & Hn & Hinit) Hrun].
  - destruct (init_fresh x0 y0 theta0 std pf g Hinit) as (ps & h & Hdone & Hlen).
    rewrite Hdone in Hrun. injection Hrun as <- <-.
    unfold population_ok. simpl. rewrite Hlen, Hnil. done.
  - unfold init in Hrun. rewrite Hinit in Hrun. by injection Hrun as <- <-.
  - destruct (prediction_run delta_t std_pos velocity yaw_rate pf g Hok)
      as (ps' & Hdone & Hlen & _).
    rewrite Hdone in Hrun. injection Hrun as <- <-.
    unfold population_ok in *. simpl. by rewrite Hlen.
  - rewrite updateWeights_run in Hrun by done. injection Hrun as <-.
    unfold population_ok in *. simpl. by rewrite length_fmap.
  - apply resample_Done in Hrun as (Hn' & Hinit' & Hlen & _).
    unfold population_ok in *. rewrite Hlen, Hn', Hinit'.
    split; [lia | done].
Qed.

(** ** Rendering the diagnostic vectors *)

Lemma string_app_empty_r (s : string) : s +:+ "" = s.
Proof.
  induction s as [|c s IH]; [done |].
  change (String c (s +:+ "") = String c s). by rewrite IH.
Qed.

Lemma string_app_assoc (s t u : string) : s +:+ (t +:+ u) = (s +:+ t) +:+ u.
Proof.
  induction s as [|c s IH]; [done |].
  change (String c (s +:+ (t +:+ u)) = String c ((s +:+ t) +:+ u)).
  by rewrite IH.
Qed.

Lemma ostream_copy_from {A} (show : A → string) (v : list A) (s : string) :
  foldl (λ s a, s +:+ show a +:+ " ") s v = s +:+ ostream_copy show v.
Proof.
  unfold ostream_copy. revert s.
  induction v as [|a v IH] using rev_ind; intros s.
  - symmetry. apply string_app_empty_r.
  - rewrite !foldl_app. cbn [foldl]. rewrite IH.
    by rewrite !string_app_assoc.
Qed.

Lemma ostream_copy_cons {A} (show : A → string) (a : A) (v : list A) :
  ostream_copy show (a :: v) = show a +:+ " " +:+ ostream_copy show v.
Proof.
  unfold ostream_copy at 1. simpl. rewrite ostream_copy_from.
  change ((show a +:+ " ") +:+ ostream_copy show v
          = show a +:+ " " +:+ ostream_copy show v).
  by rewrite <- string_app_assoc.
Qed.

(** The stream holds the elements joined by single spaces, and one more
    space at the end. *)
Lemma ostream_copy_concat {A} (show : A → string) (v : list A) :
  v ≠ [] →
  ostream_copy show v = String.concat " " (show <$> v) +:+ " ".
Proof.
  induction v as [|a v IH]; [done |]. intros _.
  rewrite ostream_copy_cons. destruct v as [|b v].
  - simpl. by rewrite string_app_empty_r.
  - rewrite IH by done. change (String.concat " " (show <$> a :: b :: v))
      with (show a +:+ " " +:+ String.concat " " (show <$> b :: v)).
    by rewrite !string_app_assoc.
Qed.

Lemma substr0_app_space (s : string) :
  substr0 (s +:+ " ") (Z.of_nat (String.length s)) = s.
Proof.
  induction s as [|c s IH]; [done |].
  change (substr0 (String c (s +:+ " "))
            (Z.of_nat (Datatypes.S (String.length s))) = String c s).
  cbn [substr0].
  destruct (0 <? Z.of_nat (Datatypes.S (String.length s))) eqn:Hpos;
    [| apply Z.ltb_ge in Hpos; lia].
  replace (Z.of_nat (Datatypes.S (String.length s)) - 1)
    with (Z.of_nat (String.length s)) by lia.
  by rewrite IH.
Qed.

Lemma string_length_app_space (s : string) :
  String.length (s +:+ " ") = Datatypes.S (String.length s).
Proof.
  induction s as [|c s IH]; [done |].
  change (Datatypes.S (String.length (s +:+ " "))
          = Datatypes.S (Datatypes.S (String.length s))).
  by rewrite IH.
Qed.

(** Dropping the last character of a text that ends in the delimiter. *)
Lemma trim_last_space (s : string) :
  fits_size_t (s +:+ " ") → trim_last (s +:+ " ") = s.
Proof.
  unfold fits_size_t, trim_last, size_t_sub.
  rewrite string_length_app_space. intros Hfit.
  rewrite Z.mod_small by lia.
  replace (Z.of_nat (Datatypes.S (String.length s)) - 1)
    with (Z.of_nat (String.length s)) by lia.
  apply substr0_app_space.
Qed.

Lemma trim_last_ostream_copy {A} (show : A → string) (v : list A) :
  fits_size_t (ostream_copy show v) →
  trim_last (ostream_copy show v) = String.concat " " (show <$> v).
Proof.
  destruct v as [|a v]; [done |]. intros Hfit.
  rewrite ostream_copy_concat in * by done. by apply trim_last_space.
Qed.

Lemma SetAssociations_self best :
  SetAssociations best (associations best) (sense_x best) (sense_y best) = best.
Proof. by destruct best. Qed.

(** C3.  Under the population invariant, [prediction] returns, and the
    particle it leaves in slot [i] is the particle [p] that was there moved
    by the motion model and then shifted by the three noise draws of round
    [i]: with [|yaw_rate| > 0.00001] the curved update of [x], [y] and
    [theta], otherwise the straight one with [theta] kept; the heading is a
    plain sum in both branches, never reduced to an interval. *)
Theorem prediction_motion_model delta_t std_pos velocity yaw_rate pf g
    (i : nat) p :
  population_ok pf →
  particles pf !! i = Some p →
  ∃ pf' g',
    prediction delta_t std_pos velocity yaw_rate pf g = Done (pf', g') ∧
    let '(nx, ny, nt, _) := draw_noise std_pos (noise_gen std_pos i g) in
    particles pf' !! i = Some
      (if (yaw_rate_eps <? abs yaw_rate)%float then
         mkParticle (id p)
           (x p + (velocity / yaw_rate)
                  * (sin (theta p + yaw_rate * delta_t) - sin (theta p))
            + nx)%float
           (y p + (velocity / yaw_rate)
                  * (cos (theta p) - cos (theta p + yaw_rate * delta_t))
            + ny)%float
           (theta p + yaw_rate * delta_t + nt)%float
           (weight p) (associations p) (sense_x p) (sense_y p)
       else
         mkParticle (id p)
           (x p + velocity * delta_t * cos (theta p) + nx)%float
           (y p + velocity * delta_t * sin (theta p) + ny)%float
           (theta p + nt)%float
           (weight p) (associations p) (sense_x p) (sense_y p)).
Proof.
  intros Hok Hp.
  destruct (prediction_run delta_t std_pos velocity yaw_rate pf g Hok)
    as (ps' & Hrun & _ & Hall).
  eexists _, _. split; [exact Hrun |].
  simpl. rewrite (Hall i p Hp). unfold predicted, add_noise.
  destruct (draw_noise std_pos (noise_gen std_pos i g)) as [[[nx ny] nt] g'].
  unfold move. by destruct (yaw_rate_eps <? abs yaw_rate)%float.
Qed.

(** C4, as the program has it.  Under the population invariant,
    [updateWeights] returns and treats the particle [p] of slot [i] as
    follows, whatever the observations and the map.  The candidate landmarks
    it collects are exactly the landmarks of the map whose Euclidean
    distance to [p] is at most [sensor_range], the bound included.  The
    weight it leaves is the product, started at 1 and taken over the
    observations in their order, of one factor per observation: the
    observation is rotated by the heading of [p] and translated by its
    position, and the factor is the bivariate Gaussian density of that point
    with the per-axis deviations [std_landmark] and a mean that is chosen as
    follows.  When some candidate has a squared distance to the point below
    the initial [minDist] (the largest finite double), the mean is the first
    of the nearest candidates: none is strictly nearer, and all before it
    are strictly farther.  When no candidate has one (there is no candidate,
    or every squared distance overflowed or is not a number), the mean is
    the origin (0, 0), the initial value of [p_x] and [p_y]. *)
Theorem updateWeights_nearest_or_origin sensor_range std_landmark
    observations map_landmarks pf (i : nat) p :
  population_ok pf →
  particles pf !! i = Some p →
  ∃ pf' factors,
    updateWeights sensor_range std_landmark observations map_landmarks pf
    = Done pf'
    ∧ in_range sensor_range (x p) (y p) map_landmarks
      = candidates sensor_range p map_landmarks
    ∧ particles pf' !! i
      = Some (mkParticle (id p) (x p) (y p) (theta p)
                (foldl (λ w c, (w * c)%float) 1%float factors)
                (associations p) (sense_x p) (sense_y p))
    ∧ Forall2
        (λ o c,
           let ox :=
             (x p + cos (theta p) * obs_x o - sin (theta p) * obs_y o)%float in
           let oy :=
             (y p + sin (theta p) * obs_x o + cos (theta p) * obs_y o)%float in
           ∃ mu_x mu_y,
             c = multiv_prob std_landmark.1 std_landmark.2 ox oy mu_x mu_y
             ∧ ((∃ lm, lm ∈ candidates sensor_range p map_landmarks
                       ∧ selectable ox oy lm) →
                ∃ (k : nat) lm,
                  first_nearest (candidates sensor_range p map_landmarks)
                    ox oy k lm
                  ∧ mu_x = obs_x lm ∧ mu_y = obs_y lm)
             ∧ ((∀ lm, lm ∈ candidates sensor_range p map_landmarks →
                       ¬ selectable ox oy lm) →
                mu_x = 0%float ∧ mu_y = 0%float))
        observations factors.
Proof.
  intros Hok Hp.
  destruct (updateWeights_lookup sensor_range std_landmark observations
              map_landmarks pf i p Hok Hp) as (pf' & Hrun & Hi).
  exists pf',
    (likelihood std_landmark (candidates sensor_range p map_landmarks)
       (x p) (y p) (theta p) <$> observations).
  split; [done |]. split; [apply in_range_filter |]. split.
  - rewrite Hi. unfold set_weight, weigh. do 2 f_equal.
    rewrite <- foldl_product. by rewrite in_range_filter.
  - apply Forall2_fmap_r, Forall_Forall2_diag, Forall_forall.
    intros o _. simpl.
    set (ox := (x p + cos (theta p) * obs_x o
                - sin (theta p) * obs_y o)%float).
    set (oy := (y p + sin (theta p) * obs_x o
                + cos (theta p) * obs_y o)%float).
    set (cands := candidates sensor_range p map_landmarks).
    exists (nearest cands ox oy).1.2, (nearest cands ox oy).2.
    split; [| split].
    + unfold likelihood, to_map_frame. fold ox oy cands.
      by destruct (nearest cands ox oy) as [[[d m] px] py].
    + intros (lm0 & Hin & Hsel).
      destruct (nearest_selectable _ _ _ lm0 Hin Hsel)
        as (k & lm & Hfirst & Hn).
      exists k, lm. split; [done |]. by rewrite Hn.
    + intros Hnone.
      destruct (nearest_spec cands ox oy)
        as [(k & lm & (Hk & Hsel & _) & _) | [_ ->]]; [| done].
      destruct (Hnone lm); [by eapply list_elem_of_lookup_2 | done].
Qed.

(** C5.  Under the population invariant, when no landmark of the map is
    within [sensor_range] of the particle [p] of slot [i], [updateWeights]
    still returns: the candidate list is empty, so for every observation the
    nearest-neighbour loop ends in its initial state, landmark id -1 and
    coordinates (0, 0), and the weight of [p] becomes the product over the
    observations of the Gaussian density of the transformed observation
    with the origin as mean. *)
Theorem updateWeights_no_landmark_in_range sensor_range std_landmark
    observations map_landmarks pf (i : nat) p :
  population_ok pf →
  particles pf !! i = Some p →
  (∀ lm, lm ∈ map_landmarks →
     (dist (x p) (y p) (x_f lm) (y_f lm) <=? sensor_range)%float = false) →
  ∃ pf',
    updateWeights sensor_range std_landmark observations map_landmarks pf
    = Done pf'
    ∧ (∀ ox oy,
         nearest (in_range sensor_range (x p) (y p) map_landmarks) ox oy
         = (DBL_MAX, -1, 0%float, 0%float))
    ∧ particles pf' !! i
      = Some (mkParticle (id p) (x p) (y p) (theta p)
                (foldl (λ w c, (w * c)%float) 1%float
                   ((λ o,
                       multiv_prob std_landmark.1 std_landmark.2
                         (x p + cos (theta p) * obs_x o
                          - sin (theta p) * obs_y o)%float
                         (y p + sin (theta p) * obs_x o
                          + cos (theta p) * obs_y o)%float
                         0%float 0%float)
                    <$> observations))
                (associations p) (sense_x p) (sense_y p)).
Proof.
  intros Hok Hp Hfar.
  destruct (updateWeights_lookup sensor_range std_landmark observations
              map_landmarks pf i p Hok Hp) as (pf' & Hrun & Hi).
  pose proof (in_range_none sensor_range (x p) (y p) map_landmarks Hfar)
    as Hnone.
  exists pf'. split; [done |]. split.
  - intros ox oy. by rewrite Hnone.
  - rewrite Hi. unfold set_weight, weigh. do 2 f_equal.
    rewrite <- foldl_product, Hnone. done.
Qed.

(** C6, as the program has it.  [dataAssociation] keeps the coordinates of
    every observation and sets its [id] as follows.  When some predicted
    landmark has a squared distance to the observation below the initial
    [minDist] (the largest finite double), the [id] becomes that of the
    first of the nearest predicted landmarks: none is strictly nearer, and
    all before it are strictly farther (there is one such landmark at most,
    [first_nearest_unique]).  When [predicted] is not empty but
    no squared distance is below that bound (it overflowed, or is not a
    number), the [id] becomes -1.  When [predicted] is empty the
    observation is left as it was. *)
Theorem dataAssociation_first_nearest predicted observations :
  Forall2
    (λ o o',
       obs_x o' = obs_x o ∧ obs_y o' = obs_y o
       ∧ ((∃ lm, lm ∈ predicted ∧ selectable (obs_x o) (obs_y o) lm) →
          ∃ (k : nat) lm,
            first_nearest predicted (obs_x o) (obs_y o) k lm
            ∧ obs_id o' = obs_id lm)
       ∧ (predicted ≠ [] →
          (∀ lm, lm ∈ predicted → ¬ selectable (obs_x o) (obs_y o) lm) →
          obs_id o' = -1)
       ∧ (predicted = [] → o' = o))
    observations (dataAssociation predicted observations).
Proof.
  unfold dataAssociation. apply Forall2_fmap_r, Forall_Forall2_diag.
  apply Forall_forall. intros o _.
  destruct (associate_spec predicted o) as (Hx & Hy & Hempty & Hid).
  split; [done |]. split; [done |]. split; [| split; [| done]].
  - intros (lm0 & Hin & Hsel).
    destruct (nearest_selectable _ _ _ lm0 Hin Hsel) as (k & lm & Hfirst & Hn).
    exists k, lm. split; [done |]. rewrite Hid, Hn; [done |].
    intros ->. by apply not_elem_of_nil in Hin.
  - intros Hne Hnone. rewrite (Hid Hne).
    destruct (nearest_spec predicted (obs_x o) (obs_y o))
      as [(k & lm & (Hk & Hsel & _) & _) | [_ ->]]; [| done].
    destruct (Hnone lm); [by eapply list_elem_of_lookup_2 | done].
Qed.

(** C9.  Under the population invariant, [updateWeights] with no
    observation returns, whatever the sensor range and the map, and leaves
    every particle as it was except for its weight, which is exactly 1. *)
Theorem updateWeights_no_observation sensor_range std_landmark map_landmarks
    pf :
  population_ok pf →
  ∃ pf',
    updateWeights sensor_range std_landmark [] map_landmarks pf = Done pf'
    ∧ particles pf'
      = (λ p, mkParticle (id p) (x p) (y p) (theta p) 1%float
                (associations p) (sense_x p) (sense_y p))
        <$> particles pf
    ∧ Forall (λ p, weight p = 1%float) (particles pf').
Proof.
  intros Hok. eexists. split; [by apply updateWeights_run |]. simpl.
  split; [done |]. apply Forall_fmap, Forall_forall. by intros p _.
Qed.

(** C2.  A filter that a driver can reach once [init] has run holds
    exactly [num_particles] particles, 100 of them, and every member
    function keeps it so: [prediction] and [updateWeights] return, whatever
    their arguments, with a filter that again holds [num_particles]
    particles; [resample] never leaves the bounds of its vectors, and every
    call of it that returns leaves a filter that holds [num_particles]
    particles. *)
Theorem population_invariant pf :
  reachable pf →
  Z.of_nat (length (particles pf)) = num_particles pf
  ∧ num_particles pf = 100
  ∧ (∀ delta_t std_pos velocity yaw_rate g,
       ∃ pf' g',
         prediction delta_t std_pos velocity yaw_rate pf g = Done (pf', g')
         ∧ Z.of_nat (length (particles pf')) = num_particles pf')
  ∧ (∀ sensor_range std_landmark observations map_landmarks,
       ∃ pf',
         updateWeights sensor_range std_landmark observations map_landmarks pf
         = Done pf'
         ∧ Z.of_nat (length (particles pf')) = num_particles pf')
  ∧ (∀ fuel g,
       resample fuel pf g ≠ Undefined
       ∧ ∀ pf' g',
           resample fuel pf g = Done (pf', g') →
           Z.of_nat (length (particles pf')) = num_particles pf').
Proof.
  intros Hreach.
  destruct (reachable_inv pf Hreach) as (Hok & Hn & _).
  split; [done |]. split; [done |]. split; [| split].
  - intros delta_t std_pos velocity yaw_rate g.
    destruct (prediction_run delta_t std_pos velocity yaw_rate pf g Hok)
      as (ps' & Hdone & Hlen & _).
    eexists _, _. split; [exact Hdone |]. simpl. by rewrite Hlen.
  - intros sensor_range std_landmark observations map_landmarks.
    eexists. split; [by apply updateWeights_run |].
    simpl. by rewrite length_fmap.
  - intros fuel g. split; [apply resample_defined; [done | lia] |].
    intros pf' g' Hrun.
    apply (reachable_inv pf'). by eapply reach_resample.
Qed.

(** C10.  Every particle of the population that a call of [resample]
    returns is one of the particles of the population it was given, equal
    to it in all eight fields; the call makes no particle of its own.  This
    holds of every call that returns, with or without a positive weight. *)
Theorem resample_copies fuel pf g pf' g' :
  resample fuel pf g = Done (pf', g') →
  ∀ p', p' ∈ particles pf' →
    ∃ (k : nat) p,
      particles pf !! k = Some p
      ∧ id p' = id p ∧ x p' = x p ∧ y p' = y p ∧ theta p' = theta p
      ∧ weight p' = weight p ∧ associations p' = associations p
      ∧ sense_x p' = sense_x p ∧ sense_y p' = sense_y p.
Proof.
  intros Hrun p' Hin.
  apply resample_Done in Hrun as (_ & _ & _ & Hcopy).
  apply Hcopy, list_elem_of_lookup in Hin as [k Hk].
  exists k, p'. by repeat split.
Qed.

(** C8.  Once [SetAssociations] has attached the vectors [a], [sx] and
    [sy] to a particle, [getAssociations] returns the elements of [a] in
    decimal, and [getSenseCoord] those of [sx] (for the coordinate ["X"]) or
    of [sy] (for any other), as the stream prints them, joined by single
    spaces with nothing after the last element.  Every particle carries its
    vectors in this way ([SetAssociations_self]).  The streamed texts are
    taken to fit a [std::string]. *)
Theorem diagnostics_render particle a sx sy :
  fits_size_t (ostream_copy ostream_int a) →
  fits_size_t (ostream_copy ostream_float sx) →
  fits_size_t (ostream_copy ostream_float sy) →
  getAssociations (SetAssociations particle a sx sy)
  = String.concat " " (ostream_int <$> a)
  ∧ getSenseCoord (SetAssociations particle a sx sy) "X"
    = String.concat " " (ostream_float <$> sx)
  ∧ (∀ coord, coord ≠ "X" →
       getSenseCoord (SetAssociations particle a sx sy) coord
       = String.concat " " (ostream_float <$> sy)).
Proof.
  intros Ha Hsx Hsy. unfold getAssociations, getSenseCoord. simpl.
  split; [by apply trim_last_ostream_copy |].
  split; [by apply trim_last_ostream_copy |].
  intros coord Hcoord.
  destruct (String.eqb_spec coord "X") as [-> | _]; [done |].
  by apply trim_last_ostream_copy.
Qed.

(** C7.  On a filter that is already initialized, [init] returns at once:
    the filter it leaves is the filter it was given, in every field of
    every particle, and no random draw is made. *)
Theorem init_initialized_noop x0 y0 theta0 std pf g :
  is_initialized pf = true →
  init x0 y0 theta0 std pf g = Done (pf, g).
Proof. intros Hinit. unfold init. by rewrite Hinit. Qed.

End Properties.

(** ** Further properties of the member functions *)

Section FurtherProperties.

Context {libm : Libm} {G : Type} {rng : RandomEngine G} {os : OStream}.

Implicit Types (pf : ParticleFilter) (p : Particle) (g : G).

Lemma at_index_beyond {A} (v : list A) (k : nat) :
  (length v ≤ k)%nat → at_index v (Z.of_nat k) = Undefined.
Proof.
  intros Hk. unfold at_index.
  destruct (Z.ltb_spec (Z.of_nat k) 0); [done |].
  rewrite Nat2Z.id. by rewrite (proj2 (lookup_ge_None v k) Hk).
Qed.

(** A counted loop whose round [m] goes out of bounds, after rounds that
    all finish, goes out of bounds as a whole. *)
Lemma for_loop_undefined {S} (P : nat → S → Prop) (body : Z → S → outcome S)
    (m : nat) (count : nat) :
  ∀ (k : nat) (s : S),
    P k s →
    (k ≤ m < k + count)%nat →
    (∀ j s, (k ≤ j < m)%nat → P j s →
       ∃ s', body (Z.of_nat j) s = Done s' ∧ P (Datatypes.S j) s') →
    (∀ s, P m s → body (Z.of_nat m) s = Undefined) →
    for_loop count (Z.of_nat k) body s = Undefined.
Proof.
  induction count as [|count IH]; intros k s HP Hm Hbody Hlast; [lia |].
  simpl. destruct (decide (k = m)) as [-> | Hne].
  - by rewrite (Hlast s HP).
  - destruct (Hbody k s) as (s1 & Hs1 & HP1); [lia | done |].
    rewrite Hs1. simpl.
    replace (Z.of_nat k + 1) with (Z.of_nat (Datatypes.S k)) by lia.
    apply IH; [done | lia | | done].
    intros j s' Hj. apply Hbody. lia.
Qed.

(** ** [init] on a filter that is not initialized *)

Lemma init_body_draw x0 y0 theta0 std (i : Z) (ps : list Particle) g :
  init_body x0 y0 theta0 std i (ps, g)
  = let '(px, py, pt, g') := draw_pose x0 y0 theta0 std g in
    Done (ps ++ [mkParticle i px py pt 1%float [] [] []], g').
Proof.
  unfold init_body, draw_pose. destruct std as [[sx sy] sth].
  destruct (normal_distribution x0 sx g) as [px g1].
  destruct (normal_distribution y0 sy g1) as [py g2].
  by destruct (normal_distribution theta0 sth g2) as [pt g3].
Qed.

(** X1.  On a filter that is not initialized [init] returns, sets
    [num_particles] to 100 and [is_initialized], keeps whatever particles
    the filter already held and pushes 100 more behind them.  The new
    particle number [k] has the id [k], the weight 1, no association and no
    sensed coordinate, and the pose drawn in round [k]: [x], then [y], then
    [theta], around the estimate with the deviations of [std]. *)
Theorem init_seeds_population x0 y0 theta0 std pf g :
  is_initialized pf = false →
  ∃ seeded,
    init x0 y0 theta0 std pf g
    = Done (mkParticleFilter 100 (particles pf ++ seeded) true,
            pose_gen x0 y0 theta0 std 100 g)
    ∧ length seeded = 100%nat
    ∧ ∀ (k : nat) p, seeded !! k = Some p →
        let '(px, py, pt, _) :=
          draw_pose x0 y0 theta0 std (pose_gen x0 y0 theta0 std k g) in
        p = mkParticle (Z.of_nat k) px py pt 1%float [] [] [].
Proof.
  intros Hinit. unfold init, for_range. rewrite Hinit.
  destruct (for_loop_total
    (λ j (st : list Particle * G),
       st.2 = pose_gen x0 y0 theta0 std j g
       ∧ ∃ seeded,
           st.1 = particles pf ++ seeded ∧ length seeded = j
           ∧ ∀ (k : nat) p, seeded !! k = Some p →
               let '(px, py, pt, _) :=
                 draw_pose x0 y0 theta0 std (pose_gen x0 y0 theta0 std k g) in
               p = mkParticle (Z.of_nat k) px py pt 1%float [] [] [])
    (init_body x0 y0 theta0 std) (Z.to_nat 100) 0%nat (particles pf, g))
    as ([ps h] & Hrun & Hh & seeded & Hps & Hlen & Hall).
  - split; [done |]. exists []. rewrite app_nil_r.
    repeat split. intros k p Hk. by rewrite lookup_nil in Hk.
  - intros j [qs h] _ (Hh & seeded & Hqs & Hlen & Hall).
    simpl in Hh, Hqs. rewrite init_body_draw. subst h.
    destruct (draw_pose x0 y0 theta0 std (pose_gen x0 y0 theta0 std j g))
      as [[[px py] pt] h'] eqn:Hdraw.
    eexists. split; [done |]. simpl. rewrite Hdraw. split; [done |].
    exists (seeded ++ [mkParticle (Z.of_nat j) px py pt 1%float [] [] []]).
    rewrite Hqs, <- app_assoc, length_app. simpl.
    split; [done |]. split; [lia |].
    intros k p Hk. apply lookup_app_Some in Hk as [Hk | [Hge Hk]].
    + by apply Hall.
    + apply list_lookup_singleton_Some in Hk as [Hk <-].
      assert (k = j) as -> by lia. by rewrite Hdraw.
  - change (Z.of_nat 0) with 0 in Hrun. rewrite Hrun. simpl in *.
    exists seeded. subst ps h. done.
Qed.

(** ** [prediction] *)

(** X2.  [prediction] touches poses only.  Under the population invariant
    it returns a filter with the same [num_particles] and
    [is_initialized] and as many particles, each with the id, the weight,
    the associations and the sensed coordinates of the particle it
    replaces, and it leaves the generator after exactly three draws per
    particle. *)
Theorem prediction_frame delta_t std_pos velocity yaw_rate pf g :
  population_ok pf →
  ∃ pf',
    prediction delta_t std_pos velocity yaw_rate pf g
    = Done (pf', noise_gen std_pos (length (particles pf)) g)
    ∧ num_particles pf' = num_particles pf
    ∧ is_initialized pf' = is_initialized pf
    ∧ Forall2
        (λ p p',
           id p' = id p ∧ weight p' = weight p
           ∧ associations p' = associations p
           ∧ sense_x p' = sense_x p ∧ sense_y p' = sense_y p)
        (particles pf) (particles pf').
Proof.
  intros Hok.
  destruct (prediction_run delta_t std_pos velocity yaw_rate pf g Hok)
    as (ps' & Hrun & Hlen & Hall).
  eexists. split; [exact Hrun |]. split; [done |]. split; [done |]. simpl.
  apply Forall2_same_length_lookup. split; [done |].
  intros k p p' Hp Hp'. rewrite (Hall k p Hp) in Hp'.
  injection Hp' as <-. unfold predicted, add_noise.
  destruct (draw_noise std_pos (noise_gen std_pos k g)) as [[[nx ny] nt] h].
  unfold move. by destruct (yaw_rate_eps <? abs yaw_rate)%float.
Qed.

(** ** A filter with fewer particles than [num_particles] *)

Lemma prediction_loop_beyond delta_t std_pos velocity yaw_rate
    (ps : list Particle) g (count : nat) :
  (length ps < count)%nat →
  for_loop count 0 (prediction_body delta_t std_pos velocity yaw_rate) (ps, g)
  = Undefined.
Proof.
  intros Hcount.
  apply (for_loop_undefined
    (λ _ (st : list Particle * G), length st.1 = length ps)
    _ (length ps) count 0%nat (ps, g)); [done | lia | |].
  - intros j [qs h] Hj Hlen. simpl in Hlen. unfold prediction_body.
    destruct (lookup_lt_is_Some_2 qs j) as [q Hq]; [lia |].
    rewrite (at_index_nat _ _ _ Hq). simpl.
    destruct (add_noise std_pos (move delta_t velocity yaw_rate q) h)
      as [q' h'].
    rewrite set_index_nat by lia. simpl.
    eexists. split; [done |]. simpl. by rewrite length_insert.
  - intros [qs h] Hlen. simpl in Hlen. unfold prediction_body.
    rewrite at_index_beyond by lia. done.
Qed.

Lemma updateWeights_loop_beyond sensor_range std_landmark observations
    landmarks (ps : list Particle) (count : nat) :
  (length ps < count)%nat →
  for_loop count 0
    (updateWeights_body sensor_range std_landmark observations landmarks) ps
  = Undefined.
Proof.
  intros Hcount.
  apply (for_loop_undefined
    (λ _ (qs : list Particle), length qs = length ps)
    _ (length ps) count 0%nat ps); [done | lia | |].
  - intros j qs Hj Hlen. unfold updateWeights_body.
    destruct (lookup_lt_is_Some_2 qs j) as [q Hq]; [lia |].
    rewrite (at_index_nat _ _ _ Hq). simpl.
    rewrite set_index_nat by lia.
    eexists. split; [done |]. by rewrite length_insert.
  - intros qs Hlen. unfold updateWeights_body.
    rewrite at_index_beyond by lia. done.
Qed.

Lemma max_weight_loop_beyond (ps : list Particle) (m0 : float) (count : nat) :
  (length ps < count)%nat →
  for_loop count 0 (max_weight_body ps) ([], m0) = Undefined.
Proof.
  intros Hcount.
  apply (for_loop_undefined (λ _ _, True)
    _ (length ps) count 0%nat ([], m0)); [done | lia | |].
  - intros j [w m] Hj _. unfold max_weight_body.
    destruct (lookup_lt_is_Some_2 ps j) as [q Hq]; [lia |].
    rewrite (at_index_nat _ _ _ Hq). simpl. by eexists.
  - intros [w m] _. unfold max_weight_body.
    rewrite at_index_beyond by lia. done.
Qed.

(** X3.  The three per-cycle functions count up to [num_particles], not
    to the size of the vector: on a filter that holds fewer particles than
    [num_particles] says, each of them reads [particles] beyond its end,
    whatever its arguments. *)
Theorem short_population_out_of_bounds pf :
  Z.of_nat (length (particles pf)) < num_particles pf →
  (∀ delta_t std_pos velocity yaw_rate g,
     prediction delta_t std_pos velocity yaw_rate pf g = Undefined)
  ∧ (∀ sensor_range std_landmark observations map_landmarks,
       updateWeights sensor_range std_landmark observations map_landmarks pf
       = Undefined)
  ∧ (∀ fuel g, resample fuel pf g = Undefined).
Proof.
  intros Hshort.
  assert (length (particles pf) < Z.to_nat (num_particles pf))%nat by lia.
  split; [| split].
  - intros. unfold prediction, for_range.
    by rewrite prediction_loop_beyond.
  - intros. unfold updateWeights, for_range.
    by rewrite updateWeights_loop_beyond.
  - intros. unfold resample, for_range.
    by rewrite max_weight_loop_beyond.
Qed.

(** ** The one-shot guard *)

(** X4.  No member function clears [is_initialized]: whatever sequence of
    calls led to a filter after the first [init], a further [init] returns
    it as it is and draws nothing, so a filter is seeded once and for
    all. *)
Theorem init_once pf :
  reachable pf →
  is_initialized pf = true
  ∧ ∀ x0 y0 theta0 std g, init x0 y0 theta0 std pf g = Done (pf, g).
Proof.
  intros Hreach. destruct (reachable_inv pf Hreach) as (_ & _ & Hinit).
  split; [done |]. intros. unfold init. by rewrite Hinit.
Qed.

(** ** What [updateWeights] reads *)

Lemma weigh_same sensor_range std_landmark observations observations'
    landmarks p q :
  x p = x q → y p = y q → theta p = theta q →
  Forall2 same_point observations observations' →
  weigh sensor_range std_landmark observations landmarks p
  = weigh sensor_range std_landmark observations' landmarks q.
Proof.
  intros Hx Hy Hth Hobs. unfold weigh. rewrite Hx, Hy, Hth.
  generalize 1%float.
  induction Hobs as [|o o' obs obs' [Hox Hoy] _ IH]; intros w; [done |].
  simpl. rewrite <- IH. unfold likelihood. by rewrite Hox, Hoy.
Qed.

(** X5.  The weight [updateWeights] leaves depends on the pose of the
    particle and on the coordinates of the observations only: two filters
    whose particles differ in nothing but their weights, given observations
    that differ in nothing but their ids, come out of the same call as the
    same filter.  Neither the weights before the call nor the ids of the
    observations are read. *)
Theorem updateWeights_reads_poses_and_points sensor_range std_landmark
    observations observations' map_landmarks pf pf2 :
  population_ok pf →
  num_particles pf2 = num_particles pf →
  is_initialized pf2 = is_initialized pf →
  Forall2 same_but_weight (particles pf) (particles pf2) →
  Forall2 same_point observations observations' →
  ∃ pf',
    updateWeights sensor_range std_landmark observations map_landmarks pf
    = Done pf'
    ∧ updateWeights sensor_range std_landmark observations' map_landmarks pf2
      = Done pf'.
Proof.
  intros Hok Hn Hinit Hps Hobs.
  assert (population_ok pf2) as Hok2.
  { unfold population_ok in *.
    by rewrite <- (Forall2_length _ _ _ Hps), Hn. }
  eexists. split; [by apply updateWeights_run |].
  rewrite updateWeights_run by done. rewrite Hn, Hinit. do 2 f_equal.
  induction Hps as [|p q ps qs Hpq _ IH]; [done |].
  rewrite !fmap_cons, IH. f_equal.
  destruct Hpq as (Hid & Hx & Hy & Hth & Ha & Hsx & Hsy).
  unfold set_weight. rewrite Hid, Hx, Hy, Hth, Ha, Hsx, Hsy. f_equal.
  symmetry. by apply weigh_same.
Qed.

(** X6.  A weighting pass is idempotent: on the filter that a call of
    [updateWeights] returned, the same call changes nothing. *)
Theorem updateWeights_idempotent sensor_range std_landmark observations
    map_landmarks pf pf' :
  population_ok pf →
  updateWeights sensor_range std_landmark observations map_landmarks pf
  = Done pf' →
  updateWeights sensor_range std_landmark observations map_landmarks pf'
  = Done pf'.
Proof.
  intros Hok Hrun. rewrite updateWeights_run in Hrun by done.
  injection Hrun as <-.
  rewrite updateWeights_run
    by (unfold population_ok in *; simpl; by rewrite length_fmap).
  simpl. do 2 f_equal. rewrite <- list_fmap_compose.
  apply list_fmap_ext. by intros k [].
Qed.

(** ** [dataAssociation] *)

Lemma associate_nonempty preds o :
  preds ≠ [] →
  associate preds o
  = mkLandmarkObs (nearest preds (obs_x o) (obs_y o)).1.1.2
      (obs_x o) (obs_y o).
Proof.
  intros Hne. destruct (associate_spec preds o) as (Hx & Hy & _ & Hid).
  specialize (Hid Hne). destruct (associate preds o) as [i' x' y'].
  simpl in *. by subst.
Qed.

(** X7.  [dataAssociation] is idempotent: the ids it writes depend on the
    coordinates alone, so a second pass over its own output with the same
    predicted landmarks changes nothing. *)
Theorem dataAssociation_idempotent predicted observations :
  dataAssociation predicted (dataAssociation predicted observations)
  = dataAssociation predicted observations.
Proof.
  unfold dataAssociation. rewrite <- list_fmap_compose.
  apply list_fmap_ext. intros _ o _. simpl.
  destruct predicted as [|lm preds].
  - by destruct (associate_spec [] (associate [] o)) as (_ & _ & -> & _).
  - rewrite !associate_nonempty by done. done.
Qed.

(** X8.  [dataAssociation] returns as many observations as it was given
    and invents no landmark: with a predicted landmark at hand, the id of
    every observation it returns is the id of one of the predicted
    landmarks, or -1. *)
Theorem dataAssociation_known_ids predicted observations :
  length (dataAssociation predicted observations) = length observations
  ∧ (predicted ≠ [] →
     ∀ o', o' ∈ dataAssociation predicted observations →
       obs_id o' = -1 ∨ ∃ lm, lm ∈ predicted ∧ obs_id o' = obs_id lm).
Proof.
  unfold dataAssociation. split; [apply length_fmap |].
  intros Hne o' (o & -> & _)%list_elem_of_fmap.
  rewrite associate_nonempty by done. simpl.
  destruct (nearest_spec predicted (obs_x o) (obs_y o))
    as [(k & lm & (Hk & _) & ->) | [_ ->]]; [right | by left].
  exists lm. split; [by eapply list_elem_of_lookup_2 | done].
Qed.

(** X9.  The helper and the weighting pass agree on the landmark.  With
    predicted landmarks at hand, [dataAssociation] writes to each
    observation the [mapId] that the inline loop of [updateWeights] holds
    after its last round for the same point, and the mean that loop hands to
    the density is the position of a predicted landmark with that id, or
    the origin together with the id -1. *)
Theorem association_agrees_with_weighting predicted observations :
  predicted ≠ [] →
  Forall2
    (λ o o',
       let '(_, mapId, p_x, p_y) := nearest predicted (obs_x o) (obs_y o) in
       o' = mkLandmarkObs mapId (obs_x o) (obs_y o)
       ∧ ((mapId = -1 ∧ p_x = 0%float ∧ p_y = 0%float)
          ∨ ∃ lm, lm ∈ predicted
                  ∧ obs_id lm = mapId ∧ obs_x lm = p_x ∧ obs_y lm = p_y))
    observations (dataAssociation predicted observations).
Proof.
  intros Hne. unfold dataAssociation.
  apply Forall2_fmap_r, Forall_Forall2_diag, Forall_forall. intros o _.
  unfold compose. rewrite associate_nonempty by done.
  destruct (nearest_spec predicted (obs_x o) (obs_y o))
    as [(k & lm & (Hk & _) & ->) | [_ ->]]; simpl.
  - split; [done |]. right. exists lm.
    split; [by eapply list_elem_of_lookup_2 | done].
  - split; [done |]. by left.
Qed.

(** ** [resample] on degenerate weights *)

(** A NaN is neither below nor above any float. *)
Lemma float_nan_ltb (w b : float) :
  is_nan w = true → (w <? b)%float = false ∧ (b <? w)%float = false.
Proof.
  unfold is_nan. rewrite FloatAxioms.eqb_spec, !ltb_spec.
  unfold SFeqb, SFltb.
  destruct (Prim2SF w) as [[]|[]| |[] mw ew]; simpl; try discriminate.
  - split; [done |]. by destruct (Prim2SF b) as [[]|[]| |[] mb eb].
  - rewrite Z.compare_refl.
    change (Pos.compare_cont Eq mw mw) with (Pos.compare mw mw).
    by rewrite Pos.compare_refl.
  - rewrite Z.compare_refl.
    change (Pos.compare_cont Eq mw mw) with (Pos.compare mw mw).
    by rewrite Pos.compare_refl.
Qed.

Lemma running_max_nan (ps : list Particle) (m : float) :
  Forall (λ p, is_nan (weight p) = true) ps → running_max m ps = m.
Proof.
  unfold running_max. induction 1 as [|p ps Hp _ IH]; simpl; [done |].
  by rewrite (proj2 (float_nan_ltb _ m Hp)).
Qed.

(** X10.  [resample] does not return from any population whose weights are
    all zero, of either sign, as soon as the first draw of [dist_w] leaves
    [beta] above zero: [maxWeight] stays at the smallest positive double,
    and the [while] of the first round uses up whatever fuel it is
    given. *)
Theorem resample_zero_weights_never_returns pf g :
  population_ok pf →
  0 < num_particles pf →
  Forall (λ p, (weight p =? 0)%float = true) (particles pf) →
  (0 <? 0 + 2 * (uniform_real_distribution 0 DBL_MIN
                   (uniform_int_distribution 0 (num_particles pf - 1) g).2).1
  )%float = true →
  running_max DBL_MIN (particles pf) = DBL_MIN
  ∧ ∀ fuel, resample fuel pf g = OutOfFuel.
Proof.
  intros Hok Hpos Hzero Hdraw.
  split; [by apply running_max_zero | by apply resample_zero_weights].
Qed.

(** X11.  When every weight is NaN no comparison of the wheel holds:
    [maxWeight] stays at the smallest positive double, [resample] returns
    as soon as its [while] may run at all, and all [num_particles] slots
    hold a copy of the one particle under the index drawn at the start.  It
    makes that one integer draw and one real draw per slot. *)
Theorem resample_nan_weights_collapse pf g fuel :
  population_ok pf →
  0 < num_particles pf →
  Forall (λ p, is_nan (weight p) = true) (particles pf) →
  ∃ p,
    particles pf
    !! Z.to_nat (uniform_int_distribution 0 (num_particles pf - 1) g).1
    = Some p
    ∧ resample (Datatypes.S fuel) pf g
      = Done (mkParticleFilter (num_particles pf)
                (replicate (length (particles pf)) p) (is_initialized pf),
              wheel_gen DBL_MIN (length (particles pf))
                (uniform_int_distribution 0 (num_particles pf - 1) g).2).
Proof.
  intros Hok Hpos Hnan.
  assert (Z.to_nat (num_particles pf) = length (particles pf)) as Hn
    by (unfold population_ok in Hok; lia).
  unfold resample, for_range. rewrite Hn, max_weight_loop. simpl.
  rewrite (running_max_nan _ _ Hnan).
  destruct (Z.ltb_spec (num_particles pf - 1) 0) as [Hneg | _]; [lia |].
  pose proof (uniform_int_in_range 0 (num_particles pf - 1) g) as Hindex.
  destruct (uniform_int_distribution 0 (num_particles pf - 1) g)
    as [index g1]. simpl in *.
  destruct (lookup_lt_is_Some_2 (particles pf) (Z.to_nat index)) as [p Hp];
    [unfold population_ok in Hok; lia |].
  exists p. split; [done |].
  destruct (for_loop_total
    (λ j (st : float * Z * list Particle * G),
       st.1.1.2 = index ∧ st.1.2 = replicate j p
       ∧ st.2 = wheel_gen DBL_MIN j g1)
    (resample_body (Datatypes.S fuel) (particles pf)
       (weight <$> particles pf) (num_particles pf) DBL_MIN)
    (length (particles pf)) 0%nat (0%float, index, [], g1))
    as ([[[beta i] acc] h] & Hrun & Hi & Hacc & Hh).
  - done.
  - intros j [[[beta i] acc] h] _ (Hi & Hacc & Hh). simpl in Hi, Hacc, Hh.
    subst i acc h. unfold resample_body.
    destruct (uniform_real_distribution 0 DBL_MIN (wheel_gen DBL_MIN j g1))
      as [d h'] eqn:Hd.
    cbn [wheel].
    assert (at_index (weight <$> particles pf) index = Done (weight p)) as ->.
    { apply at_index_Done. split; [lia |].
      by rewrite list_lookup_fmap, Hp. }
    assert (is_nan (weight p) = true) as Hw.
    { rewrite Forall_forall in Hnan. apply Hnan.
      by eapply list_elem_of_lookup_2. }
    simpl. rewrite (proj1 (float_nan_ltb _ _ Hw)). simpl.
    assert (at_index (particles pf) index = Done p) as ->
      by (apply at_index_Done; split; [lia | done]).
    simpl. eexists. split; [done |]. simpl.
    split; [done |]. split; [symmetry; apply replicate_cons_app |].
    by rewrite Hd.
  - change (Z.of_nat 0) with 0 in Hrun. rewrite Hrun. simpl in *.
    by subst acc h.
Qed.

(** ** Reading the associations back *)

Lemma space_free_uint (d : Decimal.uint) :
  space_free (NilEmpty.string_of_uint d) = true.
Proof. induction d; simpl; done. Qed.

Lemma space_free_ostream_int (v : Z) : space_free (ostream_int v) = true.
Proof.
  unfold ostream_int, NilZero.string_of_int, NilZero.string_of_uint.
  destruct (Z.to_int v) as [d | d]; destruct d; simpl;
    try done; apply space_free_uint.
Qed.

Lemma read_ostream_int (v : Z) : read_int (ostream_int v) = Some v.
Proof.
  unfold read_int, ostream_int. rewrite NilZero.isi.
  - simpl. by rewrite DecimalZ.of_to.
  - intros Hd. pose proof (DecimalZ.of_to v) as Hv. rewrite Hd in Hv.
    by subst v.
  - intros Hd. pose proof (DecimalZ.of_to v) as Hv. rewrite Hd in Hv.
    by subst v.
Qed.

Lemma fields_space_free (a : string) :
  space_free a = true → fields a = [a].
Proof.
  induction a as [|c a IH]; [done |]. simpl.
  destruct (Ascii.eqb c Ascii.Space); [done |]. simpl.
  intros Ha. by rewrite IH.
Qed.

Lemma fields_app_space (a rest : string) :
  space_free a = true →
  fields (a +:+ " " +:+ rest) = a :: fields rest.
Proof.
  induction a as [|c a IH]; [done |].
  change (String c a +:+ " " +:+ rest) with (String c (a +:+ " " +:+ rest)).
  simpl. destruct (Ascii.eqb c Ascii.Space); [done |]. simpl.
  intros Ha. by rewrite IH.
Qed.

Lemma fields_concat (l : list string) :
  l ≠ [] → Forall (λ a, space_free a = true) l →
  fields (String.concat " " l) = l.
Proof.
  induction l as [|a l IH]; [done |]. intros _ Hall.
  apply Forall_cons in Hall as [Ha Hl]. destruct l as [|b l].
  - by apply fields_space_free.
  - change (String.concat " " (a :: b :: l))
      with (a +:+ " " +:+ String.concat " " (b :: l)).
    rewrite fields_app_space by done. by rewrite IH.
Qed.

(** X12.  The text of [getAssociations] can be read back: when the
    particle has an association at least and the text fits a
    [std::string], cutting it at the spaces and reading each field as a
    decimal integer gives the associations again, in their order. *)
Theorem getAssociations_read_back best :
  associations best ≠ [] →
  fits_size_t (ostream_copy ostream_int (associations best)) →
  read_int <$> fields (getAssociations best) = Some <$> associations best.
Proof.
  intros Hne Hfit. unfold getAssociations.
  rewrite trim_last_ostream_copy by done.
  rewrite fields_concat.
  - rewrite <- list_fmap_compose. apply list_fmap_ext.
    intros _ v _. apply read_ostream_int.
  - by destruct (associations best).
  - apply Forall_fmap, Forall_forall. intros v _.
    apply space_free_ostream_int.
Qed.

End FurtherProperties.

(** ** The properties at concrete filters *)

(** [started] is what [init] leaves of a new filter. *)
Lemma started_reachable :
  reachable (libm := poly_libm) (rng := lcg_engine) started.
Proof.
  eapply (reach_init 6 2 0 (0.5, 0.5, 0.125)%float new_filter 1);
    [reflexivity | reflexivity | vm_compute; reflexivity].
Defined.

(** C1 at the failing input.  On the population [zero_weights], with the
    generator seeded with 1, [resample] does not return: whatever fuel the
    [while] of the first round is given, it is used up.  The first draw of
    [dist_w] is positive, so [beta] is, and no subtraction of a zero weight
    brings it down to the weight under the index. *)
Theorem resample_zero_weights_stalls :
  ∀ fuel, resample (rng := lcg_engine) fuel zero_weights 1 = OutOfFuel.
Proof.
  apply resample_zero_weights.
  - reflexivity.
  - reflexivity.
  - apply Forall_forall. intros p Hp.
    apply elem_of_replicate in Hp as [-> _]. reflexivity.
  - vm_compute. reflexivity.
Qed.

(** The invariant at [started]. *)
Lemma population_invariant_witness :
  reachable (libm := poly_libm) (rng := lcg_engine) started
  ∧ Z.of_nat (length (particles started)) = num_particles started
  ∧ num_particles started = 100.
Proof.
  split; [exact started_reachable |].
  pose proof (population_invariant started started_reachable) as H.
  split; [exact (proj1 H) | exact (proj1 (proj2 H))].
Defined.

(** One call of [prediction] on [two_particles] with a yaw rate of 0.25,
    above the threshold: the curved update of the first particle. *)
Lemma prediction_motion_model_witness :
  population_ok two_particles
  ∧ particles two_particles !! 0%nat = Some first_particle
  ∧ ∃ pf' g',
      prediction (libm := poly_libm) (rng := lcg_engine)
        0.125 (0.5, 0.5, 0.125)%float 2 0.25 two_particles 1
      = Done (pf', g')
      ∧ particles pf' !! 0%nat
        = Some (mkParticle 0 0x1.ef5bde09bbbccp-1 0x1.f05f8af121ac7p+0
                  0x1.205bd66ce0b7bp-1 1 [] [] []).
Proof.
  split; [reflexivity |]. split; [reflexivity |].
  destruct (prediction_motion_model (libm := poly_libm) (rng := lcg_engine)
              0.125 (0.5, 0.5, 0.125)%float 2 0.25 two_particles 1
              0%nat first_particle eq_refl eq_refl)
    as (pf' & g' & Hrun & Hslot).
  exists pf', g'. split; [exact Hrun |]. exact Hslot.
Defined.

(** The first particle sees the two near landmarks of [example_map]; its
    weight is the product of two factors, one per observation. *)
Lemma updateWeights_nearest_or_origin_witness :
  population_ok two_particles
  ∧ particles two_particles !! 0%nat = Some first_particle
  ∧ candidates 50 first_particle example_map
    = [mkLandmarkObs 1 3 2; mkLandmarkObs 2 1 5]
  ∧ ∃ pf' factors,
      updateWeights (libm := poly_libm) 50 (0.5, 0.5)%float
        example_observations example_map two_particles = Done pf'
      ∧ particles pf' !! 0%nat
        = Some (mkParticle 0 1 2 0.5
                  (foldl (λ w c, (w * c)%float) 1%float factors) [] [] [])
      ∧ length factors = 2%nat.
Proof.
  split; [reflexivity |]. split; [reflexivity |]. split; [reflexivity |].
  destruct (updateWeights_nearest_or_origin (libm := poly_libm)
              50 (0.5, 0.5)%float example_observations example_map
              two_particles 0%nat first_particle eq_refl eq_refl)
    as (pf' & factors & Hrun & _ & Hslot & Hfactors).
  exists pf', factors. split; [exact Hrun |]. split; [exact Hslot |].
  symmetry. exact (Forall2_length _ _ _ Hfactors).
Defined.

(** C4 fails as stated: with an unbounded sensor range the landmark of
    [unbounded_map] is a candidate of [lone_particle], the only one and so
    the nearest to the observation (0, 0), yet the weight [updateWeights]
    leaves is the density taken with the origin as mean and not with the
    landmark as mean.  The squared distance to the landmark is infinity,
    which is not below the initial [minDist], so [p_x] and [p_y] keep
    their initial 0.  The density at the landmark has the exponent
    infinity: the stand-in [poly_exp] gives infinity for it where the
    library's [exp] gives 0, and neither is the weight left, close to
    0.6366. *)
Lemma updateWeights_overflow :
  candidates infinity lone_particle unbounded_map
  = [mkLandmarkObs 1 infinity 0]
  ∧ to_map_frame (libm := poly_libm) 0 0 0 0 0 = (0%float, 0%float)
  ∧ sq_dist 0 0 infinity 0 = infinity
  ∧ nearest [mkLandmarkObs 1 infinity 0] 0 0 = (DBL_MAX, -1, 0%float, 0%float)
  ∧ updateWeights (libm := poly_libm) infinity (0.5, 0.5)%float
      [mkLandmarkObs 0 0 0] unbounded_map lone_filter
    = Done (mkParticleFilter 1
              [mkParticle 0 0 0 0 0x1.45f306dc9c883p-1 [] [] []] true)
  ∧ multiv_prob (libm := poly_libm) 0.5 0.5 0 0 0 0
    = 0x1.45f306dc9c883p-1%float
  ∧ multiv_prob (libm := poly_libm) 0.5 0.5 0 0 infinity 0 = infinity.
Proof. repeat split; vm_compute; reflexivity. Qed.

(** With [far_map] no landmark is within 50 of the first particle; its
    weight is the product of the two densities taken at the origin. *)
Lemma updateWeights_no_landmark_in_range_witness :
  population_ok two_particles
  ∧ particles two_particles !! 0%nat = Some first_particle
  ∧ (∀ lm, lm ∈ far_map →
       (dist (x first_particle) (y first_particle) (x_f lm) (y_f lm)
        <=? 50)%float = false)
  ∧ ∃ pf',
      updateWeights (libm := poly_libm) 50 (0.5, 0.5)%float
        example_observations far_map two_particles = Done pf'
      ∧ weight <$> particles pf' !! 0%nat = Some 0x1.e4669faa9bb3cp-114%float.
Proof.
  assert (Hfar : ∀ lm, lm ∈ far_map →
            (dist (x first_particle) (y first_particle) (x_f lm) (y_f lm)
             <=? 50)%float = false).
  { intros lm ->%list_elem_of_singleton. vm_compute. reflexivity. }
  split; [reflexivity |]. split; [reflexivity |]. split; [exact Hfar |].
  destruct (updateWeights_no_landmark_in_range (libm := poly_libm)
              50 (0.5, 0.5)%float example_observations far_map
              two_particles 0%nat first_particle eq_refl eq_refl Hfar)
    as (pf' & Hrun & _ & Hslot).
  exists pf'. split; [exact Hrun |]. rewrite Hslot. reflexivity.
Defined.

(** C6 fails as stated: [origin_landmark] is the only predicted landmark,
    so it is the nearest one to [far_observation], yet the observation
    leaves [dataAssociation] with the id -1 and not with its id 7.  The
    squared distance is [2^1200], which a double holds as infinity, and
    infinity is not below the initial [minDist]. *)
Lemma dataAssociation_overflow :
  [origin_landmark] ≠ []
  ∧ sq_dist (obs_x far_observation) (obs_y far_observation)
      (obs_x origin_landmark) (obs_y origin_landmark) = infinity
  ∧ dataAssociation [origin_landmark] [far_observation]
    = [mkLandmarkObs (-1) 0x1p+600 0]
  ∧ obs_id origin_landmark = 7.
Proof. repeat split; [done | vm_compute; reflexivity ..]. Qed.

(** The association example of the spec: with the predicted landmarks
    (5, 5) of id 1 and (2, 2) of id 2, the observation (2.1, 1.9) takes the
    id 2. *)
Example dataAssociation_spec_example :
  dataAssociation [mkLandmarkObs 1 5 5; mkLandmarkObs 2 2 2]
    [mkLandmarkObs 0 0x1.0cccccccccccdp+1 0x1.e666666666666p+0]
  = [mkLandmarkObs 2 0x1.0cccccccccccdp+1 0x1.e666666666666p+0].
Proof. vm_compute. reflexivity. Qed.

(** A second [init] on the initialized [two_particles]. *)
Lemma init_initialized_noop_witness :
  is_initialized two_particles = true
  ∧ init (rng := lcg_engine) 6 2 0 (0.5, 0.5, 0.125)%float two_particles 1
    = Done (two_particles, 1).
Proof.
  split; [reflexivity |].
  exact (init_initialized_noop (rng := lcg_engine) 6 2 0
           (0.5, 0.5, 0.125)%float two_particles 1 eq_refl).
Defined.

(** Three associations and two coordinate vectors, as they are printed. *)
Lemma diagnostics_render_witness :
  let best :=
    SetAssociations first_particle [3; -7; 12] [2; 5]%float [1; 4]%float in
  getAssociations best = "3 -7 12"
  ∧ getSenseCoord (os := integral_ostream) best "X" = "2 5"
  ∧ getSenseCoord (os := integral_ostream) best "Y" = "1 4".
Proof.
  destruct (diagnostics_render (os := integral_ostream) first_particle
              [3; -7; 12] [2; 5]%float [1; 4]%float)
    as (Ha & Hx & Hy); [vm_compute; reflexivity ..|].
  split; [exact Ha |]. split; [exact Hx |]. exact (Hy "Y" ltac:(discriminate)).
Defined.

(** A weighting pass without observations on [two_particles], whose
    second weight was 0.5. *)
Lemma updateWeights_no_observation_witness :
  population_ok two_particles
  ∧ ∃ pf',
      updateWeights (libm := poly_libm) 50 (0.5, 0.5)%float [] example_map
        two_particles = Done pf'
      ∧ weight <$> particles pf' = [1%float; 1%float].
Proof.
  split; [reflexivity |].
  destruct (updateWeights_no_observation (libm := poly_libm)
              50 (0.5, 0.5)%float example_map two_particles eq_refl)
    as (pf' & Hrun & Hps & _).
  exists pf'. split; [exact Hrun |]. rewrite Hps. reflexivity.
Defined.

(** A call of [resample] on weights 1 and 0.5 that returns: both slots
    hold a copy of the second particle. *)
Lemma resample_copies_witness :
  resample (rng := lcg_engine) 10 two_particles 1 = Done resampled
  ∧ particles resampled.1 = [second_particle; second_particle]
  ∧ ∀ p', p' ∈ particles resampled.1 →
      ∃ (k : nat) p,
        particles two_particles !! k = Some p
        ∧ id p' = id p ∧ x p' = x p ∧ y p' = y p ∧ theta p' = theta p
        ∧ weight p' = weight p ∧ associations p' = associations p
        ∧ sense_x p' = sense_x p ∧ sense_y p' = sense_y p.
Proof.
  split; [vm_compute; reflexivity |]. split; [reflexivity |].
  exact (resample_copies (rng := lcg_engine) 10 two_particles 1
           resampled.1 resampled.2 ltac:(vm_compute; reflexivity)).
Defined.

(** The end-to-end scenario of the spec: [init] at (0, 0, 0) without noise
    gives 100 particles at exactly (0, 0, 0) with weight 1 and the ids 0 to
    99, and [prediction] over one time unit at velocity 1 and yaw rate 0,
    again without noise, takes every one of them to (1, 0, 0). *)
Example end_to_end_scenario :
  ∃ pf0 g0 pf1 g1,
    init (rng := lcg_engine) 0 0 0 (0, 0, 0)%float new_filter 1
    = Done (pf0, g0)
    ∧ particles pf0
      = (λ i, mkParticle i 0 0 0 1 [] [] []) <$> seqZ 0 100
    ∧ prediction (libm := poly_libm) 1 (0, 0, 0)%float 1 0 pf0 g0
      = Done (pf1, g1)
    ∧ particles pf1
      = (λ i, mkParticle i 1 0 0 1 [] [] []) <$> seqZ 0 100.
Proof.
  eexists _, _, _, _.
  split; [vm_compute; reflexivity |]. split; [vm_compute; reflexivity |].
  split; vm_compute; reflexivity.
Qed.

(** The boundary of the sensor range is inside it: a landmark at distance
    exactly 5 of the particle is a candidate for the range 5, and is none
    for the next double below 5. *)
Example in_range_boundary :
  in_range 5 0 0 [mkLandmark 1 3 4] = [mkLandmarkObs 1 3 4]
  ∧ in_range 0x1.3ffffffffffffp+2 0 0 [mkLandmark 1 3 4] = [].
Proof. split; vm_compute; reflexivity. Qed.

(** ** The further properties at concrete filters *)

(** [init] on a new filter: 100 particles, the first with the id 0. *)
Lemma init_seeds_population_witness :
  is_initialized new_filter = false
  ∧ ∃ seeded g',
      init (rng := lcg_engine) 6 2 0 (0.5, 0.5, 0.125)%float new_filter 1
      = Done (mkParticleFilter 100 seeded true, g')
      ∧ length seeded = 100%nat
      ∧ id <$> seeded !! 0%nat = Some 0.
Proof.
  split; [reflexivity |].
  destruct (init_seeds_population (rng := lcg_engine) 6 2 0
              (0.5, 0.5, 0.125)%float new_filter 1 eq_refl)
    as (seeded & Hrun & Hlen & Hall).
  exists seeded, (pose_gen 6 2 0 (0.5, 0.5, 0.125)%float 100 1).
  split; [exact Hrun |]. split; [exact Hlen |].
  destruct seeded as [|p seeded]; [discriminate Hlen |].
  specialize (Hall 0%nat p eq_refl). simpl in Hall.
  destruct (draw_pose 6 2 0 (0.5, 0.5, 0.125)%float 1) as [[[px py] pt] h].
  rewrite Hall. reflexivity.
Defined.

(** [prediction] on [two_particles] leaves the weights 1 and 0.5. *)
Lemma prediction_frame_witness :
  population_ok two_particles
  ∧ ∃ pf',
      prediction (libm := poly_libm) (rng := lcg_engine)
        0.125 (0.5, 0.5, 0.125)%float 2 0.25 two_particles 1
      = Done (pf', 470211272)
      ∧ num_particles pf' = 2
      ∧ length (particles pf') = 2%nat.
Proof.
  split; [reflexivity |].
  destruct (prediction_frame (libm := poly_libm) (rng := lcg_engine)
              0.125 (0.5, 0.5, 0.125)%float 2 0.25 two_particles 1 eq_refl)
    as (pf' & Hrun & Hn & _ & Hall).
  exists pf'. split; [exact Hrun |]. split; [exact Hn |].
  symmetry. exact (Forall2_length _ _ _ Hall).
Defined.

(** [short_filter] holds two particles for a [num_particles] of 3. *)
Lemma short_population_out_of_bounds_witness :
  Z.of_nat (length (particles short_filter)) < num_particles short_filter
  ∧ prediction (libm := poly_libm) (rng := lcg_engine)
      0.125 (0.5, 0.5, 0.125)%float 2 0.25 short_filter 1 = Undefined
  ∧ updateWeights (libm := poly_libm) 50 (0.5, 0.5)%float
      example_observations example_map short_filter = Undefined
  ∧ resample (rng := lcg_engine) 10 short_filter 1 = Undefined.
Proof.
  assert (Hshort : Z.of_nat (length (particles short_filter))
                   < num_particles short_filter) by reflexivity.
  destruct (short_population_out_of_bounds (libm := poly_libm)
              (rng := lcg_engine) short_filter Hshort) as (Hp & Hu & Hr).
  split; [exact Hshort |]. split; [apply Hp |]. split; [apply Hu | apply Hr].
Defined.

(** A second [init] on [started]. *)
Lemma init_once_witness :
  reachable (libm := poly_libm) (rng := lcg_engine) started
  ∧ init (rng := lcg_engine) 0 0 0 (1, 1, 1)%float started 7
    = Done (started, 7).
Proof.
  split; [exact started_reachable |].
  exact (proj2 (init_once started started_reachable)
           0%float 0%float 0%float (1, 1, 1)%float 7).
Defined.

(** [two_particles] and [reweighted_particles] differ in their weights,
    [example_observations] and [labelled_observations] in their ids. *)
Lemma updateWeights_reads_poses_and_points_witness :
  population_ok two_particles
  ∧ Forall2 same_but_weight
      (particles two_particles) (particles reweighted_particles)
  ∧ Forall2 same_point example_observations labelled_observations
  ∧ updateWeights (libm := poly_libm) 50 (0.5, 0.5)%float
      example_observations example_map two_particles
    = updateWeights (libm := poly_libm) 50 (0.5, 0.5)%float
        labelled_observations example_map reweighted_particles.
Proof.
  assert (Hps : Forall2 same_but_weight
                  (particles two_particles) (particles reweighted_particles))
    by (repeat constructor).
  assert (Hobs : Forall2 same_point example_observations labelled_observations)
    by (repeat constructor).
  split; [reflexivity |]. split; [exact Hps |]. split; [exact Hobs |].
  destruct (updateWeights_reads_poses_and_points (libm := poly_libm)
              50 (0.5, 0.5)%float example_observations labelled_observations
              example_map two_particles reweighted_particles
              eq_refl eq_refl eq_refl Hps Hobs) as (pf' & -> & ->).
  reflexivity.
Defined.

(** Two weighting passes on [two_particles]. *)
Lemma updateWeights_idempotent_witness :
  population_ok two_particles
  ∧ ∃ pf',
      updateWeights (libm := poly_libm) 50 (0.5, 0.5)%float
        example_observations example_map two_particles = Done pf'
      ∧ updateWeights (libm := poly_libm) 50 (0.5, 0.5)%float
          example_observations example_map pf' = Done pf'.
Proof.
  split; [reflexivity |]. eexists. split; [vm_compute; reflexivity |].
  apply (updateWeights_idempotent (libm := poly_libm) 50 (0.5, 0.5)%float
           example_observations example_map two_particles);
    [reflexivity | vm_compute; reflexivity].
Defined.

(** The association example of the spec, through the inline loop. *)
Lemma association_agrees_with_weighting_witness :
  [mkLandmarkObs 1 5 5; mkLandmarkObs 2 2 2] ≠ []
  ∧ Forall2
      (λ o o',
         let '(_, mapId, p_x, p_y) :=
           nearest [mkLandmarkObs 1 5 5; mkLandmarkObs 2 2 2]
             (obs_x o) (obs_y o) in
         o' = mkLandmarkObs mapId (obs_x o) (obs_y o)
         ∧ ((mapId = -1 ∧ p_x = 0%float ∧ p_y = 0%float)
            ∨ ∃ lm, lm ∈ [mkLandmarkObs 1 5 5; mkLandmarkObs 2 2 2]
                    ∧ obs_id lm = mapId ∧ obs_x lm = p_x ∧ obs_y lm = p_y))
      [mkLandmarkObs 0 0x1.0cccccccccccdp+1 0x1.e666666666666p+0]
      (dataAssociation [mkLandmarkObs 1 5 5; mkLandmarkObs 2 2 2]
         [mkLandmarkObs 0 0x1.0cccccccccccdp+1 0x1.e666666666666p+0]).
Proof.
  split; [discriminate |].
  exact (association_agrees_with_weighting
           [mkLandmarkObs 1 5 5; mkLandmarkObs 2 2 2]
           [mkLandmarkObs 0 0x1.0cccccccccccdp+1 0x1.e666666666666p+0]
           ltac:(discriminate)).
Defined.

(** [zero_weights] under the generator seeded with 1. *)
Lemma resample_zero_weights_never_returns_witness :
  population_ok zero_weights
  ∧ Forall (λ p, (weight p =? 0)%float = true) (particles zero_weights)
  ∧ resample (rng := lcg_engine) 1000 zero_weights 1 = OutOfFuel.
Proof.
  assert (Hzero : Forall (λ p, (weight p =? 0)%float = true)
                    (particles zero_weights)).
  { apply Forall_forall. intros p Hp.
    apply elem_of_replicate in Hp as [-> _]. reflexivity. }
  split; [reflexivity |]. split; [exact Hzero |].
  exact (proj2 (resample_zero_weights_never_returns (rng := lcg_engine)
                  zero_weights 1 eq_refl eq_refl Hzero
                  ltac:(vm_compute; reflexivity)) 1000%nat).
Defined.

(** [nan_weights] under the generator seeded with 1: the index drawn is 1,
    and both slots hold the second particle. *)
Lemma resample_nan_weights_collapse_witness :
  population_ok nan_weights
  ∧ Forall (λ p, is_nan (weight p) = true) (particles nan_weights)
  ∧ ∃ p g',
      particles nan_weights !! 1%nat = Some p
      ∧ resample (rng := lcg_engine) 1 nan_weights 1
        = Done (mkParticleFilter 2 [p; p] true, g').
Proof.
  assert (Hnan : Forall (λ p, is_nan (weight p) = true)
                   (particles nan_weights)) by (repeat constructor).
  split; [reflexivity |]. split; [exact Hnan |].
  destruct (resample_nan_weights_collapse (rng := lcg_engine)
              nan_weights 1 0%nat eq_refl eq_refl Hnan) as (p & Hp & Hrun).
  exists p. eexists. split; [exact Hp | exact Hrun].
Defined.

(** Three associations, printed and read back. *)
Lemma getAssociations_read_back_witness :
  let best :=
    SetAssociations first_particle [3; -7; 12] [2; 5]%float [1; 4]%float in
  associations best ≠ []
  ∧ getAssociations best = "3 -7 12"
  ∧ read_int <$> fields (getAssociations best) = [Some 3; Some (-7); Some 12].
Proof.
  split; [discriminate |]. split; [vm_compute; reflexivity |].
  exact (getAssociations_read_back
           (SetAssociations first_particle [3; -7; 12] [2; 5]%float
              [1; 4]%float)
           ltac:(discriminate) ltac:(vm_compute; reflexivity)).
Defined.
